(** * Flashcard sheet generator (app.py)

    A shallow embedding of the card pipeline of app.py: the filename colour
    heuristic, the luminance rule, the row reader with its inline colour tag,
    the page grid, and build_pdf as a program over an explicit canvas log and
    temporary-file store.

    Conventions.
    - Python [str] is [pystr], a list of characters; the characters are the
      first 256 code points (Latin-1), with Python's notion of white space and
      of lower-casing on that range.
    - Python [float] is IEEE binary64, Rocq's primitive [float]; Python [int]
      is [Z], with [//] and [%] as [Z.div] and [Z.modulo].
    - A Python [dict] is an association list in insertion order.
    - reportlab and PIL are outside the repository.  Their constants (A4, cm,
      HexColor, white, black, lightgrey) are written as reportlab defines them;
      their fallible calls are answered by an environment record. *)

From Stdlib Require Import List String Ascii Bool ZArith QArith Lia Floats.
Import ListNotations.

Set Warnings "-inexact-float".
Local Open Scope Z_scope.

(* ------------------------------------------------------------------ *)
(** ** Text *)

Module Text.

Definition pystr := list ascii.

(** String literals. *)
Definition py (s : string) : pystr := list_ascii_of_string s.

Definition chr_eqb (a b : ascii) : bool := Ascii.eqb a b.

Fixpoint str_eqb (a b : pystr) : bool :=
  match a, b with
  | [], [] => true
  | x :: a', y :: b' => chr_eqb x y && str_eqb a' b'
  | _, _ => false
  end.

(** [str.isspace] on Latin-1: TAB..CR, FS..US, SPACE, NEL, NBSP. *)
Definition is_space (c : ascii) : bool :=
  let n := N_of_ascii c in
  (((9 <=? n) && (n <=? 13)) || ((28 <=? n) && (n <=? 32))
   || (n =? 133) || (n =? 160))%N.

(** [str.lower] on Latin-1: A..Z and the accented capitals except the
    multiplication sign move up by 32. *)
Definition lower_chr (c : ascii) : ascii :=
  let n := N_of_ascii c in
  if (((65 <=? n) && (n <=? 90))
      || ((192 <=? n) && (n <=? 222) && negb (n =? 215)))%N
  then ascii_of_N (n + 32) else c.

Definition lower (s : pystr) : pystr := map lower_chr s.

Fixpoint drop_while (f : ascii -> bool) (s : pystr) : pystr :=
  match s with
  | [] => []
  | c :: t => if f c then drop_while f t else s
  end.

Fixpoint take_while (f : ascii -> bool) (s : pystr) : pystr :=
  match s with
  | [] => []
  | c :: t => if f c then c :: take_while f t else []
  end.

Definition lstrip (s : pystr) : pystr := drop_while is_space s.

Fixpoint rstrip (s : pystr) : pystr :=
  match s with
  | [] => []
  | c :: t =>
      match rstrip t with
      | [] => if is_space c then [] else [c]
      | r => c :: r
      end
  end.

(** [str.strip()]. *)
Definition strip (s : pystr) : pystr := lstrip (rstrip s).

Fixpoint starts_with (k s : pystr) : bool :=
  match k, s with
  | [], _ => true
  | x :: k', y :: s' => chr_eqb x y && starts_with k' s'
  | _ :: _, [] => false
  end.

(** [k in s] for strings. *)
Fixpoint contains (k s : pystr) : bool :=
  starts_with k s ||
  match s with
  | [] => false
  | _ :: t => contains k t
  end.

(** Truthiness of a string: non-empty. *)
Definition truthy (s : pystr) : bool :=
  match s with [] => false | _ :: _ => true end.

(** A Python [dict] with string keys, in insertion order. *)
Definition dict (V : Type) := list (pystr * V).

Fixpoint dict_find {V} (k : pystr) (d : dict V) : option V :=
  match d with
  | [] => None
  | (k', v) :: d' => if str_eqb k k' then Some v else dict_find k d'
  end.

(** [d[k] = v]: an existing key keeps its place and takes the new value, a
    new key goes last. *)
Fixpoint dict_set {V} (k : pystr) (v : V) (d : dict V) : dict V :=
  match d with
  | [] => [(k, v)]
  | (k', v') :: d' =>
      if str_eqb k k' then (k', v) :: d' else (k', v') :: dict_set k v d'
  end.

End Text.
Export Text.

(* ------------------------------------------------------------------ *)
(** ** Numbers and colours *)

Module Num.

Local Open Scope float_scope.

(** [float(n)] for the small integers the program multiplies floats by. *)
Definition float_of_Z (z : Z) : float :=
  if (z <? 0)%Z
  then - PrimFloat.of_uint63 (Uint63.of_Z (- z))
  else PrimFloat.of_uint63 (Uint63.of_Z z).

(** reportlab.lib.units *)
Definition inch : float := 72.0.
Definition cm : float := inch / 2.54.
Definition mm : float := cm * 0.1.

(** reportlab.lib.pagesizes.A4 *)
Definition A4 : float * float := (210 * mm, 297 * mm).

Record Color := mkColor { red : float; green : float; blue : float }.

(** reportlab.lib.colors.HexColor on a 24-bit value. *)
Definition HexColor (val : Z) : Color :=
  mkColor (float_of_Z (Z.land (Z.shiftr val 16) 255) / 255.0)
          (float_of_Z (Z.land (Z.shiftr val 8) 255) / 255.0)
          (float_of_Z (Z.land val 255) / 255.0).

Definition white : Color := mkColor 1 1 1.
Definition black : Color := mkColor 0 0 0.
Definition lightgrey : Color := HexColor 0xD3D3D3.

End Num.
Export Num.

(* ------------------------------------------------------------------ *)
(** ** Settings *)

Definition NB_CARTES : Z := 10.
Definition COLS : Z := 2.
Definition ROWS : Z := 5.
Definition MARGIN : float := (1.0 * cm)%float.
Definition GAP : float := (0.35 * cm)%float.
Definition BORDER_WIDTH : Z := 1.
Definition ELEMENT_SPACING : float := (0.8 * cm)%float.

Definition COLOR_MAP : dict Color :=
  [ (py "bleu",  HexColor 0x2D6CDF);
    (py "rouge", HexColor 0xD64541);
    (py "rose",  HexColor 0xE85D9E);
    (py "vert",  HexColor 0x2ECC71);
    (py "jaune", HexColor 0xF1C40F) ].

(** [COLOR_MAP[k]]; the keys the program subscripts with are keys of the map
    (see [filename_keys_in_map]), so the fall-through value is never read. *)
Definition COLOR_MAP_at (k : pystr) : Color :=
  match dict_find k COLOR_MAP with
  | Some c => c
  | None => black
  end.

(** [COLOR_MAP.get(k, default)] where [k] may be [None]. *)
Definition COLOR_MAP_get (k : option pystr) (default : Color) : Color :=
  match k with
  | Some k' =>
      match dict_find k' COLOR_MAP with
      | Some c => c
      | None => default
      end
  | None => default
  end.

(* ------------------------------------------------------------------ *)
(** ** pick_color_from_filename *)

Definition filename_keys : list pystr :=
  [py "bleu"; py "rouge"; py "rose"; py "vert"; py "jaune"].

(** The [for key in [...]: if key in low: return ...] loop. *)
Fixpoint first_key_in (keys : list pystr) (low : pystr) : option pystr :=
  match keys with
  | [] => None
  | k :: ks => if contains k low then Some k else first_key_in ks low
  end.

Definition pick_color_from_filename (filename : pystr) : pystr * Color :=
  let low := lower filename in
  match first_key_in filename_keys low with
  | Some key => (key, COLOR_MAP_at key)
  | None => (py "bleu", COLOR_MAP_at (py "bleu"))
  end.

(* ------------------------------------------------------------------ *)
(** ** is_dark *)

Definition luminance (c : Color) : float :=
  (0.2126 * red c + 0.7152 * green c + 0.0722 * blue c)%float.

Definition is_dark (c : Color) : bool :=
  PrimFloat.ltb (luminance c) 0.55%float.

(** The [textColor] of the front style in build_pdf. *)
Definition recto_text_color (back : Color) : Color :=
  if is_dark back then white else black.

(* ------------------------------------------------------------------ *)
(** ** Page grid *)

Record Grid := mkGrid {
  page_w : float; page_h : float;
  card_w : float; card_h : float;
  x0 : float; y0 : float }.

Definition compute_grid : Grid :=
  let '(pw, ph) := A4 in
  let usable_w := (pw - float_of_Z 2 * MARGIN - float_of_Z (COLS - 1) * GAP)%float in
  let usable_h := (ph - float_of_Z 2 * MARGIN - float_of_Z (ROWS - 1) * GAP)%float in
  let cw := (usable_w / float_of_Z COLS)%float in
  let ch := (usable_h / float_of_Z ROWS)%float in
  mkGrid pw ph cw ch MARGIN MARGIN.

Definition card_xy (grid : Grid) (col row : Z) : float * float :=
  let x := (x0 grid + float_of_Z col * (card_w grid + GAP))%float in
  let y_top := (page_h grid - y0 grid - float_of_Z row * (card_h grid + GAP))%float in
  let y := (y_top - card_h grid)%float in
  (x, y).

(** compute_grid and the two sums of the tiling identity with exact rational
    arithmetic in place of binary64, for any page size, margin and gap. *)
Module Exact.

Record Grid := mkGrid {
  page_w : Q; page_h : Q;
  card_w : Q; card_h : Q;
  x0 : Q; y0 : Q }.

Definition compute_grid (A4 : Q * Q) (MARGIN GAP : Q) : Grid :=
  let '(pw, ph) := A4 in
  let usable_w := (pw - inject_Z 2 * MARGIN - inject_Z (COLS - 1) * GAP)%Q in
  let usable_h := (ph - inject_Z 2 * MARGIN - inject_Z (ROWS - 1) * GAP)%Q in
  let cw := (usable_w / inject_Z COLS)%Q in
  let ch := (usable_h / inject_Z ROWS)%Q in
  mkGrid pw ph cw ch MARGIN MARGIN.

Definition width_sum (MARGIN GAP : Q) (g : Grid) : Q :=
  (card_w g * inject_Z COLS + GAP * inject_Z (COLS - 1) + inject_Z 2 * MARGIN)%Q.

Definition height_sum (MARGIN GAP : Q) (g : Grid) : Q :=
  (card_h g * inject_Z ROWS + GAP * inject_Z (ROWS - 1) + inject_Z 2 * MARGIN)%Q.

End Exact.

(** Logical slot to cell, as both loops of build_pdf compute it. *)
Definition front_cell (i : Z) : Z * Z := (i mod COLS, i / COLS).

Definition back_cell (i : Z) : Z * Z :=
  let row := i / COLS in
  let col := i mod COLS in
  let back_col := COLS - 1 - col in
  (back_col, row).

(* ------------------------------------------------------------------ *)
(** ** Reading cards from the rows of the CSV reader

    [csv.Sniffer] and [csv.reader] are Python's library; the reader below
    starts from [rows = list(reader)]. *)

Definition normalize_header (h : pystr) : pystr :=
  filter (fun c => negb (is_space c)) (lower (strip h)).

Definition e_acute : ascii := ascii_of_N 233.

Definition header_vocabulary : list pystr :=
  [py "question"; py "q"; py "texte"; py "text"; py "reponse";
   py "r" ++ e_acute :: py "ponse"; py "answer"; py "reponseverso";
   py "verso"].

Definition has_header (norm_first : list pystr) : bool :=
  existsb (fun x => existsb (str_eqb x) header_vocabulary) norm_first.

(** [not any(str(x).strip() for x in r)] *)
Definition row_blank (r : list pystr) : bool :=
  forallb (fun x => negb (truthy (strip x))) r.

(** [{headers[i]: (r[i].strip() if i < len(r) else "") for i in range(len(headers))}] *)
Fixpoint row_dict_from (d : dict pystr) (headers r : list pystr) : dict pystr :=
  match headers with
  | [] => d
  | h :: hs =>
      let v := match r with [] => [] | x :: _ => strip x end in
      row_dict_from (dict_set h v d) hs (tl r)
  end.

Definition row_dict (headers r : list pystr) : dict pystr :=
  row_dict_from [] headers r.

(** The inner loop of get_field: the first item whose normalised key is [nk]. *)
Fixpoint find_item (nk : pystr) (d : dict pystr) : option pystr :=
  match d with
  | [] => None
  | (kk, vv) :: d' =>
      if str_eqb (normalize_header kk) nk then Some (strip vv)
      else find_item nk d'
  end.

Fixpoint get_field (d : dict pystr) (keys : list pystr) (fallback : pystr) : pystr :=
  match keys with
  | [] => fallback
  | k :: ks =>
      match find_item (normalize_header k) d with
      | Some v => v
      | None => get_field d ks fallback
      end
  end.

Definition lparen : ascii := "("%char.
Definition rparen : ascii := ")"%char.
Definition not_rparen (c : ascii) : bool := negb (chr_eqb c rparen).

(** What follows an opening parenthesis in both patterns: [[^)]+\)\s*$].
    The class cannot step over a closing parenthesis, so the group is the run
    up to the first one; [\s*$] then asks for white space up to the end. *)
Definition match_group (r : pystr) : option pystr :=
  match take_while not_rparen r, drop_while not_rparen r with
  | (_ :: _) as g, _ :: t => if forallb is_space t then Some g else None
  | _, _ => None
  end.

(** [re.search(r'\(([^)]+)\)\s*$', s)]: group 1 of the leftmost match. *)
Fixpoint re_search_tag (s : pystr) : option pystr :=
  match s with
  | [] => None
  | c :: t =>
      if chr_eqb c lparen then
        match match_group t with
        | Some g => Some g
        | None => re_search_tag t
        end
      else re_search_tag t
  end.

(** Does [\s*\(([^)]+)\)\s*$] match at the head of [s]? *)
Definition tag_matches_here (s : pystr) : bool :=
  match drop_while is_space s with
  | c :: t =>
      if chr_eqb c lparen then
        match match_group t with Some _ => true | None => false end
      else false
  | [] => false
  end.

(** [re.sub(r'\s*\(([^)]+)\)\s*$', '', s)]: the leftmost match runs to the
    end of the string and is dropped. *)
Fixpoint re_sub_tag (s : pystr) : pystr :=
  if tag_matches_here s then []
  else match s with
       | [] => []
       | c :: t => c :: re_sub_tag t
       end.

(** The colour-tag step, written twice in read_cards_from_csv (headered and
    headerless branch) with the same text. *)
Definition color_tag (q_raw : pystr) : pystr * option pystr :=
  match re_search_tag q_raw with
  | Some g =>
      let extracted_color_name := strip (lower g) in
      match dict_find extracted_color_name COLOR_MAP with
      | Some _ => (strip (re_sub_tag q_raw), Some extracted_color_name)
      | None => (q_raw, None)
      end
  | None => (q_raw, None)
  end.

(** A card is a dict whose values are strings or [None]. *)
Definition card := dict (option pystr).

Definition mk_card (question texte : pystr) (key : option pystr) : card :=
  [ (py "question", Some question);
    (py "texte", Some texte);
    (py "card_color_key", key) ].

(** [d.get(k)]: [None] for a missing key as for a key bound to [None]. *)
Definition card_get (c : card) (k : pystr) : option pystr :=
  match dict_find k c with
  | Some v => v
  | None => None
  end.

(** [d.get(k, "")] as build_pdf hands it to the text box, where a [None]
    value is replaced by the empty string ([text or ""]). *)
Definition card_text (c : card) (k : pystr) : pystr :=
  match card_get c k with
  | Some s => s
  | None => []
  end.

Definition question_keys : list pystr := [py "question"; py "q"].

Definition texte_keys : list pystr :=
  [py "texte"; py "text"; py "reponse"; py "r" ++ e_acute :: py "ponse";
   py "answer"; py "verso"; py "reponseverso"].

Definition card_of_header_row (headers r : list pystr) : card :=
  let d := row_dict headers r in
  let q_raw := get_field d question_keys [] in
  let '(question_text, card_color_key) := color_tag q_raw in
  let txt := get_field d texte_keys [] in
  mk_card question_text txt card_color_key.

Definition card_of_plain_row (r : list pystr) : card :=
  let q_raw := match r with x :: _ => strip x | [] => [] end in
  let '(question_text, card_color_key) := color_tag q_raw in
  let txt := match r with _ :: x :: _ => strip x | _ => [] end in
  let txt := if negb (truthy txt)
             then match r with _ :: _ :: x :: _ => strip x | _ => txt end
             else txt in
  mk_card question_text txt card_color_key.

Definition read_cards_from_rows (rows : list (list pystr)) : list card :=
  match rows with
  | [] => []
  | first :: rest =>
      let norm_first := map normalize_header first in
      if has_header norm_first
      then map (card_of_header_row norm_first)
               (filter (fun r => negb (row_blank r)) rest)
      else map card_of_plain_row
               (filter (fun r => negb (row_blank r)) rows)
  end.

(* ------------------------------------------------------------------ *)
(** ** build_pdf

    The canvas, the temporary files and the Streamlit messages are one
    state: a chronological log of what was drawn and reported, the temporary
    files on disk, and the list [temp_image_files_to_clean].  A call into
    PIL, tempfile, reportlab or os either succeeds or raises, as the
    environment says; [try_] is [try ... except Exception]. *)

Module Pdf.

Record ParagraphStyle := mkStyle {
  style_name : pystr;
  fontName : pystr;
  fontSize : float;
  leading : float;
  textColor : Color }.

(** The name [NamedTemporaryFile] hands out; names are fresh, and the file
    made for card [i] is named [i] here. *)
Definition path := Z.

Inductive message :=
| ErrPreprocess                 (* "Erreur lors du prétraitement de l'image" *)
| ErrCompositing (i : Z)        (* "Erreur lors du compositing ... carte i" *)
| ErrDrawImage                  (* "Erreur lors du dessin de l'image" *)
| ErrNoCards.                   (* "Aucune carte n'a pu être lue ..." *)

Inductive event :=
| SetFillColor (c : Color)
| SetLineWidth (w : Z)
| SetStrokeColor (c : Color)
| Rect (x y w h : float) (stroke fill : bool)
| DrawImage (p : path) (x y w h : float)
| DrawParagraph (markup : pystr) (style : ParagraphStyle) (x y : float)
| ShowPage
| Save
| TempCreated (p : path)
| PngSaved (p : path)
| Removed (p : path)
| StError (m : message)
| StWarning (p : path)
| StSuccess
| StDownloadButton.

Record Env := mkEnv {
  open_ok : bool;                 (* Image.open and convert('RGBA') *)
  compose_ok : Z -> bool;         (* Image.new and paste, per card *)
  mktemp_ok : Z -> bool;          (* NamedTemporaryFile, per card *)
  save_png_ok : Z -> bool;        (* alpha_composite_img.save, per card *)
  draw_image_ok : path -> bool;   (* c.drawImage *)
  remove_ok : path -> bool;       (* os.remove; a failure is an OSError *)
  para_ok : pystr -> bool;        (* Paragraph(markup, style) accepts the markup *)
  wrap_height : pystr -> ParagraphStyle -> float -> float -> float
                                  (* the height wrapOn answers *) }.

Record State := mkState {
  log : list event;
  files : list path;
  to_clean : list path }.

Definition init : State := mkState [] [] [].

Inductive result (A : Type) :=
| Ok (a : A)
| Raised.
Arguments Ok {A} a.
Arguments Raised {A}.

Definition M (A : Type) := State -> result A * State.

Definition ret {A} (a : A) : M A := fun s => (Ok a, s).

Definition raise {A} : M A := fun s => (Raised, s).

Definition bind {A B} (m : M A) (k : A -> M B) : M B :=
  fun s =>
    match m s with
    | (Ok a, s') => k a s'
    | (Raised, s') => (Raised, s')
    end.

Notation "x <- m ;; k" := (bind m (fun x => k))
  (at level 61, m at next level, right associativity).
Notation "m ;; k" := (bind m (fun _ => k))
  (at level 61, right associativity).

Definition try_ {A} (m handler : M A) : M A :=
  fun s =>
    match m s with
    | (Ok a, s') => (Ok a, s')
    | (Raised, s') => handler s'
    end.

Definition emit (e : event) : M unit :=
  fun s => (Ok tt, mkState (log s ++ [e]) (files s) (to_clean s)).

(** A library call that may raise. *)
Definition guard (ok : bool) : M unit := if ok then ret tt else raise.

Definition create_file (p : path) : M unit :=
  fun s => (Ok tt, mkState (log s ++ [TempCreated p]) (files s ++ [p]) (to_clean s)).

Definition register (p : path) : M unit :=
  fun s => (Ok tt, mkState (log s) (files s) (to_clean s ++ [p])).

Definition delete_file (p : path) : M unit :=
  fun s => (Ok tt, mkState (log s ++ [Removed p])
                           (filter (fun q => negb (q =? p)) (files s))
                           (to_clean s)).

Fixpoint for_each {A} (l : list A) (body : A -> M unit) : M unit :=
  match l with
  | [] => ret tt
  | x :: l' => body x ;; for_each l' body
  end.

(** [range(n)] *)
Definition range (n : Z) : list Z := map Z.of_nat (seq 0 (Z.to_nat n)).

Definition draw_card_border (x y w h : float) (stroke_color : Color) : M unit :=
  emit (SetLineWidth BORDER_WIDTH) ;;
  emit (SetStrokeColor stroke_color) ;;
  emit (Rect x y w h true false).

(** [text.replace("\n", "<br/>")] *)
Definition break_lines (text : pystr) : pystr :=
  flat_map (fun c => if chr_eqb c (ascii_of_N 10) then py "<br/>" else [c]) text.

Section Backend.

Variable env : Env.

Definition draw_centered_text_in_box (x y w h : float) (text : pystr)
    (style : ParagraphStyle) : M unit :=
  let pad := 6%float in
  let inner_x := (x + pad)%float in
  let inner_y := (y + pad)%float in
  let inner_w := (w - 2 * pad)%float in
  let inner_h := (h - 2 * pad)%float in
  let markup := if truthy (strip text) then break_lines text else py "&nbsp;" in
  guard (para_ok env markup) ;;
  let text_height := wrap_height env markup style inner_w (inner_h * 100)%float in
  let text_height := if PrimFloat.ltb inner_h text_height then inner_h else text_height in
  let y_offset := ((inner_h - text_height) / 2)%float in
  emit (DrawParagraph markup style inner_x (inner_y + y_offset)%float).

(** The body of [try: ... except Exception] around the compositing: the file
    exists once NamedTemporaryFile has returned, and its name joins the
    clean-up list only after the [with] block has ended normally. *)
Definition composite (i : Z) : M (option path) :=
  try_ (guard (compose_ok env i) ;;
        guard (mktemp_ok env i) ;;
        create_file i ;;
        guard (save_png_ok env i) ;;
        emit (PngSaved i) ;;
        register i ;;
        ret (Some i))
       (emit (StError (ErrCompositing i)) ;; ret None).

Definition base_font : pystr := py "Helvetica".

Definition style_verso : ParagraphStyle :=
  mkStyle (py "Verso") base_font 12.5 14.5 black.

Definition style_recto (back : Color) : ParagraphStyle :=
  mkStyle (py "Recto") base_font 16 18 (recto_text_color back).

Definition blank_card : card :=
  [ (py "question", Some []); (py "texte", Some []) ].

(** [(cards[:NB_CARTES] + [blank] * NB_CARTES)[:NB_CARTES]] *)
Definition cards10 (cards : list card) : list card :=
  firstn (Z.to_nat NB_CARTES)
         (firstn (Z.to_nat NB_CARTES) cards ++ repeat blank_card (Z.to_nat NB_CARTES)).

Definition card_at (deck : list card) (i : Z) : card :=
  nth (Z.to_nat i) deck blank_card.

Definition recto_card (grid : Grid) (deck : list card) (default_back_color : Color)
    (have_image : bool) (i : Z) : M unit :=
  let '(col, row) := front_cell i in
  let '(x, y) := card_xy grid col row in
  let card_specific_color_key := card_get (card_at deck i) (py "card_color_key") in
  let current_back_color := COLOR_MAP_get card_specific_color_key default_back_color in
  let style := style_recto current_back_color in
  let question := card_text (card_at deck i) (py "question") in
  emit (SetFillColor current_back_color) ;;
  emit (Rect x y (card_w grid) (card_h grid) false true) ;;
  image_to_draw_path <- (if have_image then composite i else ret None) ;;
  match image_to_draw_path with
  | Some p =>
      let img_h := (card_h grid / 2)%float in
      let img_w := img_h in
      let img_x := (x + (card_w grid - img_w) / 2)%float in
      let img_y := (y + ELEMENT_SPACING)%float in
      let text_box_h := (card_h grid - (3 * ELEMENT_SPACING + img_h))%float in
      let text_box_x := x in
      let text_box_y := (img_y + img_h + ELEMENT_SPACING)%float in
      let text_box_w := card_w grid in
      drawn <- try_ (guard (draw_image_ok env p) ;;
                     emit (DrawImage p img_x img_y img_w img_h) ;;
                     ret true)
                    (emit (StError ErrDrawImage) ;; ret false) ;;
      if drawn
      then draw_centered_text_in_box text_box_x text_box_y text_box_w text_box_h
             question style
      else draw_centered_text_in_box x y (card_w grid) (card_h grid) question style
  | None =>
      draw_centered_text_in_box x y (card_w grid) (card_h grid) question style
  end.

Definition verso_card (grid : Grid) (deck : list card) (i : Z) : M unit :=
  let '(back_col, row) := back_cell i in
  let '(x, y) := card_xy grid back_col row in
  draw_centered_text_in_box x y (card_w grid) (card_h grid)
    (card_text (card_at deck i) (py "texte")) style_verso.

Definition remove_temp (p : path) : M unit :=
  if remove_ok env p then delete_file p else emit (StWarning p).

Definition clean_up : M unit :=
  fun s => for_each (to_clean s) remove_temp s.

Definition build_pdf (cards : list card) (default_back_color : Color)
    (uploaded_image_file : bool) : M unit :=
  let grid := compute_grid in
  let deck := cards10 cards in
  have_image <-
    (if uploaded_image_file
     then try_ (guard (open_ok env) ;; ret true)
               (emit (StError ErrPreprocess) ;; ret false)
     else ret false) ;;
  for_each (range NB_CARTES) (recto_card grid deck default_back_color have_image) ;;
  emit ShowPage ;;
  for_each (range NB_CARTES) (verso_card grid deck) ;;
  emit Save ;;
  clean_up.

(** The handler of the "Générer le PDF" button. *)
Definition on_generate (cards : list card) (default_back_color : Color)
    (uploaded_image_file : bool) : M unit :=
  match cards with
  | _ :: _ =>
      build_pdf cards default_back_color uploaded_image_file ;;
      emit StSuccess ;;
      emit StDownloadButton
  | [] => emit (StError ErrNoCards)
  end.

End Backend.

End Pdf.

(* ------------------------------------------------------------------ *)
(** ** Vocabulary of the statements *)

(** [k] occurs in [s]. *)
Definition Substring (k s : pystr) : Prop := exists a b, s = a ++ k ++ b.

(** Every opening parenthesis of [s] has a closing one somewhere after it. *)
Fixpoint no_open (s : pystr) : bool :=
  match s with
  | [] => true
  | c :: t =>
      (if chr_eqb c lparen then existsb (chr_eqb rparen) t else true)
      && no_open t
  end.

Definition is_color_name (k : pystr) : bool :=
  match dict_find k COLOR_MAP with Some _ => true | None => false end.

(** The text of a group with what follows it: "(" c ")" ws. *)
Definition group_tail (c ws : pystr) : pystr := lparen :: c ++ rparen :: ws.

(** [s = pre ++ "(" ++ c ++ ")" ++ ws] with [ws] white space: [s] ends,
    white space tolerated, with the parenthesised group [c]. *)
Definition ends_with_group (s pre c ws : pystr) : Prop :=
  s = pre ++ group_tail c ws /\ forallb is_space ws = true.

(** [cell_w*COLS + gap*(COLS-1) + 2*margin], and the same for the height,
    as Python evaluates them on floats. *)
Definition width_sum (g : Grid) : float :=
  (card_w g * float_of_Z COLS + GAP * float_of_Z (COLS - 1)
   + float_of_Z 2 * MARGIN)%float.

Definition height_sum (g : Grid) : float :=
  (card_h g * float_of_Z ROWS + GAP * float_of_Z (ROWS - 1)
   + float_of_Z 2 * MARGIN)%float.

Definition not_space (c : ascii) : bool := negb (is_space c).

(** The cell of a row under a header position, as row_dict reads it. *)
Definition cell (r : list pystr) (j : nat) : pystr :=
  match nth_error r j with
  | Some x => strip x
  | None => []
  end.

(** Events that outline a cell: what draw_card_border would log. *)
Definition is_border_event (e : Pdf.event) : bool :=
  match e with
  | Pdf.SetLineWidth _ | Pdf.SetStrokeColor _ => true
  | Pdf.Rect _ _ _ _ stroke _ => stroke
  | _ => false
  end.

(** [a] is logged, and [b] is logged only after it. *)
Definition precedes (a : Pdf.event) (is_b : Pdf.event -> bool) (l : list Pdf.event) : Prop :=
  forall l1 e l2, l = l1 ++ e :: l2 -> is_b e = true -> In a l1.

Definition is_draw_of (p : Pdf.path) (e : Pdf.event) : bool :=
  match e with
  | Pdf.DrawImage q _ _ _ _ => (q =? p)
  | _ => false
  end.

(** Hoare triples over the program monad: from a state satisfying [P] the
    program ends, normally or by raising, in a state satisfying [Q]. *)
Definition hoare {A} (P : Pdf.State -> Prop) (m : Pdf.M A)
    (Q : Pdf.result A -> Pdf.State -> Prop) : Prop :=
  forall s, P s -> Q (fst (m s)) (snd (m s)).

(** [I] holds after [m] whenever it held before, however [m] ends. *)
Definition preserves {A} (I : Pdf.State -> Prop) (m : Pdf.M A) : Prop :=
  hoare I m (fun _ => I).

(** [m] never raises. *)
Definition total {A} (m : Pdf.M A) : Prop :=
  forall s, exists a, fst (m s) = Pdf.Ok a.

Definition no_border_logged (s : Pdf.State) : Prop :=
  Forall (fun e => is_border_event e = false) (Pdf.log s).

Definition created_before_drawn (s : Pdf.State) : Prop :=
  forall p, precedes (Pdf.TempCreated p) (is_draw_of p) (Pdf.log s).

Definition is_draw (e : Pdf.event) : bool :=
  match e with Pdf.DrawImage _ _ _ _ _ => true | _ => false end.

(** The invariant of a card whose file [p] exists. *)
Definition drawable (p : Pdf.path) (s : Pdf.State) : Prop :=
  created_before_drawn s /\ In (Pdf.TempCreated p) (Pdf.log s).

(** What composite guarantees about the name it returns. *)
Definition composite_post (r : Pdf.result (option Pdf.path)) (s : Pdf.State) : Prop :=
  match r with
  | Pdf.Ok (Some p) => drawable p s
  | _ => created_before_drawn s
  end.

(** [p] is on the clean-up list. *)
Definition registered (p : Pdf.path) (s : Pdf.State) : Prop :=
  In p (Pdf.to_clean s).

(** What the clean-up loop leaves for a path: the file removed, or the
    failure to remove it reported. *)
Definition removal_attempted (env : Pdf.Env) (s : Pdf.State) (p : Pdf.path) : Prop :=
  (Pdf.remove_ok env p = true /\ In (Pdf.Removed p) (Pdf.log s)
   /\ ~ In p (Pdf.files s))
  \/ (Pdf.remove_ok env p = false /\ In (Pdf.StWarning p) (Pdf.log s)).

(** build_pdf up to [c.save()], before the clean-up loop. *)
Definition drawing (env : Pdf.Env) (cards : list card)
    (default_back_color : Color) (uploaded_image_file : bool) : Pdf.M unit :=
  Pdf.bind
    (if uploaded_image_file
     then Pdf.try_ (Pdf.bind (Pdf.guard (Pdf.open_ok env)) (fun _ => Pdf.ret true))
                   (Pdf.bind (Pdf.emit (Pdf.StError Pdf.ErrPreprocess))
                             (fun _ => Pdf.ret false))
     else Pdf.ret false)
    (fun have_image =>
       Pdf.bind (Pdf.for_each (Pdf.range NB_CARTES)
                   (Pdf.recto_card env compute_grid (Pdf.cards10 cards)
                      default_back_color have_image))
         (fun _ => Pdf.bind (Pdf.emit Pdf.ShowPage)
            (fun _ => Pdf.bind (Pdf.for_each (Pdf.range NB_CARTES)
                                  (Pdf.verso_card env compute_grid (Pdf.cards10 cards)))
               (fun _ => Pdf.emit Pdf.Save)))).

(** Environments of the examples: one card's PNG cannot be written; one
    card's paragraph is refused; nothing fails. *)
Definition env_fine : Pdf.Env :=
  Pdf.mkEnv true (fun _ => true) (fun _ => true) (fun _ => true)
            (fun _ => true) (fun _ => true) (fun _ => true)
            (fun _ _ _ _ => 20%float).

Definition env_save_fails : Pdf.Env :=
  Pdf.mkEnv true (fun _ => true) (fun _ => true) (fun i => negb (i =? 0))
            (fun _ => true) (fun _ => true) (fun _ => true)
            (fun _ _ _ _ => 20%float).

Definition env_markup_refused : Pdf.Env :=
  Pdf.mkEnv true (fun _ => true) (fun _ => true) (fun _ => true)
            (fun _ => true) (fun _ => true)
            (fun m => negb (contains (py "<b>") m))
            (fun _ _ _ _ => 20%float).

Definition env_remove_fails : Pdf.Env :=
  Pdf.mkEnv true (fun _ => true) (fun _ => true) (fun _ => true)
            (fun p => negb (p =? 1)) (fun p => negb (p =? 0)) (fun _ => true)
            (fun _ _ _ _ => 20%float).

Definition sample_card : card := mk_card (py "Q1") (py "A1") None.

Definition markup_card : card :=
  mk_card (py "<b>bold") (py "A2") (Some (py "jaune")).

Definition bleu : Color := HexColor 0x2D6CDF.

(** What every card of the reader looks like: the three keys, stripped
    texts, and a colour key that is absent or a key of COLOR_MAP. *)
Definition well_formed_card (c : card) : Prop :=
  exists q t k,
    c = mk_card q t k /\ strip q = q /\ strip t = t /\
    match k with
    | None => True
    | Some n => is_color_name n = true
    end.

Definition not_blank (r : list pystr) : bool := negb (row_blank r).

(** Origins of the front and of the back cell of a slot on the program's
    grid. *)
Definition front_box (i : Z) : float * float :=
  let '(col, row) := front_cell i in card_xy compute_grid col row.

Definition back_box (i : Z) : float * float :=
  let '(col, row) := back_cell i in card_xy compute_grid col row.

(** The cells with origins [a] and [b] are apart, side by side or one above
    the other, by GAP up to 2^-44 point. *)
Definition apart (a b : float * float) : bool :=
  let g := compute_grid in
  let gap := (GAP - 0x1p-44)%float in
  (PrimFloat.leb (fst a + card_w g + gap) (fst b)
   || PrimFloat.leb (fst b + card_w g + gap) (fst a)
   || PrimFloat.leb (snd a + card_h g + gap) (snd b)
   || PrimFloat.leb (snd b + card_h g + gap) (snd a))%float.

(** The cell with origin [a] keeps the margin on the left, on the right and
    at the top, and at the bottom up to 2^-45 point. *)
Definition inside_margins (a : float * float) : bool :=
  let g := compute_grid in
  (PrimFloat.leb MARGIN (fst a)
   && PrimFloat.leb (fst a + card_w g) (page_w g - MARGIN)
   && PrimFloat.leb (snd a + card_h g) (page_h g - MARGIN)
   && PrimFloat.leb (MARGIN - 0x1p-45) (snd a))%float.

(** card_xy over the rationals, on a grid of [Exact]. *)
Module ExactCell.

Definition card_xy (GAP : Q) (grid : Exact.Grid) (col row : Z) : Q * Q :=
  let x := (Exact.x0 grid + inject_Z col * (Exact.card_w grid + GAP))%Q in
  let y_top := (Exact.page_h grid - Exact.y0 grid
                - inject_Z row * (Exact.card_h grid + GAP))%Q in
  let y := (y_top - Exact.card_h grid)%Q in
  (x, y).

End ExactCell.

(** The state after more events have been logged. *)
Definition logged (l : list Pdf.event) (s : Pdf.State) : Pdf.State :=
  Pdf.mkState (Pdf.log s ++ l) (Pdf.files s) (Pdf.to_clean s).

Definition newline : ascii := ascii_of_N 10.

(** The markup draw_centered_text_in_box hands to Paragraph. *)
Definition paragraph_markup (text : pystr) : pystr :=
  if truthy (strip text) then Pdf.break_lines text else py "&nbsp;".

(** The paragraph draw_centered_text_in_box logs when the markup is
    accepted. *)
Definition paragraph_event (env : Pdf.Env) (x y w h : float) (text : pystr)
    (style : Pdf.ParagraphStyle) : Pdf.event :=
  let pad := 6%float in
  let inner_w := (w - 2 * pad)%float in
  let inner_h := (h - 2 * pad)%float in
  let measured :=
    Pdf.wrap_height env (paragraph_markup text) style inner_w (inner_h * 100)%float in
  let text_height := if PrimFloat.ltb inner_h measured then inner_h else measured in
  Pdf.DrawParagraph (paragraph_markup text) style (x + pad)%float
    (y + pad + (inner_h - text_height) / 2)%float.

(** The colour a card is filled with. *)
Definition card_color (deck : list card) (default_back_color : Color) (i : Z) : Color :=
  COLOR_MAP_get (card_get (Pdf.card_at deck i) (py "card_color_key"))
                default_back_color.

(** What a card logs on the front page when no image is in play, and on the
    back page. *)
Definition recto_plain (env : Pdf.Env) (deck : list card)
    (default_back_color : Color) (i : Z) : list Pdf.event :=
  let g := compute_grid in
  let color := card_color deck default_back_color i in
  [ Pdf.SetFillColor color;
    Pdf.Rect (fst (front_box i)) (snd (front_box i)) (card_w g) (card_h g) false true;
    paragraph_event env (fst (front_box i)) (snd (front_box i)) (card_w g) (card_h g)
      (card_text (Pdf.card_at deck i) (py "question")) (Pdf.style_recto color) ].

Definition verso_plain (env : Pdf.Env) (deck : list card) (i : Z) : Pdf.event :=
  let g := compute_grid in
  paragraph_event env (fst (back_box i)) (snd (back_box i)) (card_w g) (card_h g)
    (card_text (Pdf.card_at deck i) (py "texte")) Pdf.style_verso.

(** Events of the canvas, as opposed to messages and file operations. *)
Definition is_canvas (e : Pdf.event) : bool :=
  match e with
  | Pdf.SetFillColor _ | Pdf.SetLineWidth _ | Pdf.SetStrokeColor _
  | Pdf.Rect _ _ _ _ _ _ | Pdf.DrawImage _ _ _ _ _
  | Pdf.DrawParagraph _ _ _ _ | Pdf.ShowPage | Pdf.Save => true
  | _ => false
  end.

(** Events the button handler logs after build_pdf. *)
Definition is_handler_event (e : Pdf.event) : bool :=
  match e with
  | Pdf.StSuccess | Pdf.StDownloadButton => true
  | _ => false
  end.

(** Every file on disk is on the clean-up list, or its PNG was not written. *)
Definition files_accounted (env : Pdf.Env) (s : Pdf.State) : Prop :=
  forall p, In p (Pdf.files s) ->
    In p (Pdf.to_clean s) \/ Pdf.save_png_ok env p = false.

(** The log holds no event of the class [P]. *)
Definition none_logged (P : Pdf.event -> bool) (s : Pdf.State) : Prop :=
  Forall (fun e => P e = false) (Pdf.log s).

(** An environment in which the uploaded image cannot be opened. *)
Definition env_unreadable_image : Pdf.Env :=
  Pdf.mkEnv false (fun _ => true) (fun _ => true) (fun _ => true)
            (fun _ => true) (fun _ => true) (fun _ => true)
            (fun _ _ _ _ => 20%float).

(** The square the image is drawn in and the box of the question above it,
    for a cell with origin (x, y) on the program's grid, as recto_card
    computes them. *)
Definition image_box (x y : float) : float * float * float * float :=
  let g := compute_grid in
  let img_h := (card_h g / 2)%float in
  ((x + (card_w g - img_h) / 2)%float, (y + ELEMENT_SPACING)%float, img_h, img_h).

Definition text_box_over_image (x y : float) : float * float * float * float :=
  let g := compute_grid in
  let img_h := (card_h g / 2)%float in
  (x, (y + ELEMENT_SPACING + img_h + ELEMENT_SPACING)%float, card_w g,
   (card_h g - (3 * ELEMENT_SPACING + img_h))%float).

(** Image and text box lie inside the cell, the text box above the image
    with at least one ELEMENT_SPACING (up to 2^-44) between them, and both
    keep one ELEMENT_SPACING (up to 2^-44) from the bottom and the top. *)
Definition image_layout_ok (x y : float) : bool :=
  let g := compute_grid in
  let '(ix, iy, iw, ih) := image_box x y in
  let '(tx, ty, tw, th) := text_box_over_image x y in
  let sp := (ELEMENT_SPACING - 0x1p-44)%float in
  (PrimFloat.leb x ix && PrimFloat.leb (ix + iw) (x + card_w g)
   && PrimFloat.leb (y + sp) iy
   && PrimFloat.leb (iy + ih + sp) ty
   && PrimFloat.ltb 0 th
   && PrimFloat.leb (ty + th + sp) (y + card_h g))%float.

(** The log begins with the events [l]. *)
Definition log_starts (l : list Pdf.event) (s : Pdf.State) : Prop :=
  exists rest, Pdf.log s = l ++ rest.

(** Every paragraph in the log is set in the style [st]. *)
Definition paragraphs_styled (st : Pdf.ParagraphStyle) (s : Pdf.State) : Prop :=
  forall markup st' x y,
    In (Pdf.DrawParagraph markup st' x y) (Pdf.log s) -> st' = st.

(** Events of the clean-up loop: a file removed, or a warning that it could
    not be. *)
Definition is_cleanup_event (e : Pdf.event) : bool :=
  match e with
  | Pdf.Removed _ | Pdf.StWarning _ => true
  | _ => false
  end.

(** Every file whose PNG was written was created and is on the clean-up
    list. *)
Definition saved_are_registered (s : Pdf.State) : Prop :=
  forall i, In (Pdf.PngSaved i) (Pdf.log s) ->
    In (Pdf.TempCreated i) (Pdf.log s) /\ In i (Pdf.to_clean s).

(** The document is saved before any clean-up event. *)
Definition cleanup_after_save (s : Pdf.State) : Prop :=
  precedes Pdf.Save is_cleanup_event (Pdf.log s).

(** A colour that is not a grey and whose luminance is exactly 0.55. *)
Definition boundary_color : Color := mkColor 0.25 0.59375 1.

(* ================================================================== *)
(** * Properties *)

(** ** Text lemmas *)

Arguments chr_eqb : simpl never.
Arguments is_space : simpl never.
Arguments lower_chr : simpl never.

Lemma chr_eqb_eq (a b : ascii) : chr_eqb a b = true <-> a = b.
Proof. unfold chr_eqb. apply Ascii.eqb_eq. Qed.

Lemma chr_eqb_refl (a : ascii) : chr_eqb a a = true.
Proof. now apply chr_eqb_eq. Qed.

Lemma str_eqb_eq (a b : pystr) : str_eqb a b = true <-> a = b.
Proof.
  revert b. induction a as [|x a IH]; intros [|y b]; simpl;
    try (split; [discriminate | congruence]); try tauto.
  rewrite andb_true_iff, chr_eqb_eq, IH. split.
  - intros [-> ->]. reflexivity.
  - intros E. injection E as -> ->. auto.
Qed.

Lemma str_eqb_refl (a : pystr) : str_eqb a a = true.
Proof. now apply str_eqb_eq. Qed.

Lemma str_eqb_neq (a b : pystr) : str_eqb a b = false <-> a <> b.
Proof.
  rewrite <- str_eqb_eq. destruct (str_eqb a b); split; congruence.
Qed.

Lemma str_eqb_sym (a b : pystr) : str_eqb a b = str_eqb b a.
Proof.
  destruct (str_eqb a b) eqn:E.
  - apply str_eqb_eq in E. subst. symmetry. apply str_eqb_refl.
  - symmetry. apply str_eqb_neq. apply str_eqb_neq in E. congruence.
Qed.

Lemma starts_with_spec (k s : pystr) :
  starts_with k s = true <-> exists b, s = k ++ b.
Proof.
  revert s. induction k as [|x k IH]; intros s; simpl.
  - split; eauto.
  - destruct s as [|y s].
    + split; [discriminate | intros [b E]; discriminate].
    + rewrite andb_true_iff, chr_eqb_eq, IH. split.
      * intros [-> [b ->]]. eauto.
      * intros [b E]. injection E as -> ->. eauto.
Qed.

Lemma contains_spec (k s : pystr) : contains k s = true <-> Substring k s.
Proof.
  unfold Substring. induction s as [|y s IH].
  - simpl. rewrite orb_false_r, starts_with_spec. split.
    + intros [b E]. exists [], b. exact E.
    + intros [a [b E]]. destruct a; [eauto | discriminate].
  - cbn [contains]. rewrite orb_true_iff, starts_with_spec, IH. split.
    + intros [[b E] | [a [b E]]].
      * exists [], b. exact E.
      * exists (y :: a), b. simpl. now rewrite E.
    + intros [[|z a] [b E]].
      * left. eauto.
      * right. injection E as _ E. eauto.
Qed.

Lemma contains_false (k s : pystr) : contains k s = false <-> ~ Substring k s.
Proof.
  rewrite <- contains_spec. destruct (contains k s); split; congruence.
Qed.

(** ** The filename heuristic *)

Lemma first_key_in_none (keys : list pystr) (low : pystr) :
  first_key_in keys low = None <-> forall k, In k keys -> ~ Substring k low.
Proof.
  induction keys as [|k ks IH]; simpl.
  - split; [intros _ k [] | reflexivity].
  - destruct (contains k low) eqn:E.
    + split; [discriminate|]. intros H. exfalso.
      apply (H k); [now left | now apply contains_spec].
    + rewrite IH. split.
      * intros H k' [<- | Hin]; [now apply contains_false | auto].
      * intros H k' Hin. apply H. now right.
Qed.

Lemma first_key_in_some (keys : list pystr) (low key : pystr) :
  first_key_in keys low = Some key <->
  exists before after, keys = before ++ key :: after /\ Substring key low /\
    forall k, In k before -> ~ Substring k low.
Proof.
  induction keys as [|k ks IH]; simpl.
  - split; [discriminate|]. intros (b & a & E & _). destruct b; discriminate.
  - destruct (contains k low) eqn:E.
    + split.
      * intros [= <-]. exists [], ks. repeat split.
        -- now apply contains_spec.
        -- intros k' [].
      * intros ([|b0 b] & a & Ek & Hs & Hn).
        -- injection Ek as -> _. reflexivity.
        -- injection Ek as -> _. exfalso. apply (Hn b0); [now left|].
           now apply contains_spec.
    + rewrite IH. split.
      * intros (b & a & -> & Hs & Hn). exists (k :: b), a. repeat split; auto.
        intros k' [<- | Hin]; [now apply contains_false | auto].
      * intros ([|b0 b] & a & Ek & Hs & Hn).
        -- injection Ek as -> _. apply contains_false in E. contradiction.
        -- injection Ek as _ ->. exists b, a. repeat split; auto.
           intros k' Hin. apply Hn. now right.
Qed.

Lemma filename_keys_in_map :
  forall k, In k filename_keys -> is_color_name k = true.
Proof.
  intros k Hin. simpl in Hin.
  repeat (destruct Hin as [<- | Hin]; [reflexivity|]). destruct Hin.
Qed.

(** C9: the default colour is the first of bleu, rouge, rose, vert, jaune (in
    that order) that occurs in the lower-cased filename, and bleu when none
    occurs; whenever some name occurs, exactly this first one decides. *)
Theorem pick_color_first_match (filename : pystr) :
  (forall before key after,
      filename_keys = before ++ key :: after ->
      Substring key (lower filename) ->
      (forall k, In k before -> ~ Substring k (lower filename)) ->
      pick_color_from_filename filename = (key, COLOR_MAP_at key))
  /\ ((forall k, In k filename_keys -> ~ Substring k (lower filename)) ->
      pick_color_from_filename filename = (py "bleu", HexColor 0x2D6CDF))
  /\ (forall k, In k filename_keys -> Substring k (lower filename) ->
      exists before key after,
        filename_keys = before ++ key :: after /\
        Substring key (lower filename) /\
        (forall k', In k' before -> ~ Substring k' (lower filename)) /\
        pick_color_from_filename filename = (key, COLOR_MAP_at key)).
Proof.
  unfold pick_color_from_filename. repeat split.
  - intros before key after E Hs Hn.
    assert (H : first_key_in filename_keys (lower filename) = Some key)
      by (apply first_key_in_some; eauto).
    now rewrite H.
  - intros Hn. apply first_key_in_none in Hn. now rewrite Hn.
  - intros k Hin Hs.
    destruct (first_key_in filename_keys (lower filename)) as [key|] eqn:E.
    + pose proof E as E'. apply first_key_in_some in E'.
      destruct E' as (b & a & Ek & Hk & Hn). exists b, key, a. auto.
    + exfalso. exact (proj1 (first_key_in_none _ _) E k Hin Hs).
Qed.

Lemma pick_color_first_match_witness :
  pick_color_from_filename (py "Rose_ROUGE.csv") = (py "rouge", HexColor 0xD64541).
Proof.
  apply (proj1 (pick_color_first_match (py "Rose_ROUGE.csv"))
           [py "bleu"] (py "rouge") [py "rose"; py "vert"; py "jaune"]).
  - reflexivity.
  - exists (py "rose_"), (py ".csv"). reflexivity.
  - intros k [<- | []]. apply contains_false. reflexivity.
Defined.

(** ** The luminance rule *)

Lemma luminance_formula (c : Color) :
  luminance c = (0.2126 * red c + 0.7152 * green c + 0.0722 * blue c)%float.
Proof. reflexivity. Qed.

(** The grey (0.55, 0.55, 0.55) has components in [0,1] and luminance
    exactly 0.55 in binary64, and is not classified as dark. *)
Lemma luminance_boundary_is_not_dark :
  let c := mkColor 0.55 0.55 0.55 in
  (PrimFloat.leb 0 (red c) && PrimFloat.leb (red c) 1 = true)
  /\ PrimFloat.eqb (luminance c) 0.55 = true
  /\ luminance c = 0.55%float
  /\ is_dark c = false
  /\ recto_text_color c = black
  /\ recto_text_color c <> white.
Proof.
  repeat split; try reflexivity.
  intros H. apply (f_equal (fun k => PrimFloat.eqb (red k) 1)) in H.
  vm_compute in H. discriminate.
Qed.

(** ** The page grid *)

(** The claim of exact tiling fails for the height: in binary64 the sum of
    five cell heights, four gaps and two margins is not the page height. *)
Lemma grid_height_sum_differs :
  PrimFloat.eqb (width_sum compute_grid) (page_w compute_grid) = true
  /\ PrimFloat.eqb (height_sum compute_grid) (page_h compute_grid) = false
  /\ height_sum compute_grid <> page_h compute_grid.
Proof.
  repeat split; try reflexivity.
  intros H.
  apply (f_equal (fun v => PrimFloat.eqb v (page_h compute_grid))) in H.
  vm_compute in H. discriminate.
Qed.

Lemma exact_grid_tiles (A4 : Q * Q) (margin gap : Q) :
  (Exact.width_sum margin gap (Exact.compute_grid A4 margin gap) == fst A4)%Q
  /\ (Exact.height_sum margin gap (Exact.compute_grid A4 margin gap) == snd A4)%Q.
Proof.
  destruct A4 as [pw ph].
  unfold Exact.width_sum, Exact.height_sum, Exact.compute_grid, COLS, ROWS.
  cbn [Exact.card_w Exact.card_h fst snd]. split; field.
Qed.

(** C3, as the code has it: for the fixed constants the width identity holds
    exactly in the program's binary64 arithmetic, the height identity holds up
    to one rounding step (the sum is 2^-43 point below the page height) and
    exactly when the same formulas are evaluated over the rationals; the
    cell origin is x = margin + col*(cell_w+gap) and
    y = page_h - margin - row*(cell_h+gap) - cell_h, and row 0 is topmost. *)
Theorem grid_tiles_page :
  let g := compute_grid in
  width_sum g = page_w g
  /\ (page_h g - height_sum g)%float = 0x1p-43%float
  /\ (forall A4 margin gap,
        (Exact.width_sum margin gap (Exact.compute_grid A4 margin gap) == fst A4)%Q
        /\ (Exact.height_sum margin gap (Exact.compute_grid A4 margin gap) == snd A4)%Q)
  /\ (forall col row,
        card_xy g col row =
        ((MARGIN + float_of_Z col * (card_w g + GAP))%float,
         (page_h g - MARGIN - float_of_Z row * (card_h g + GAP) - card_h g)%float))
  /\ (forall col, In col [0; 1] ->
        forall row, In row [0; 1; 2; 3] ->
          PrimFloat.ltb (snd (card_xy g col (row + 1))) (snd (card_xy g col row)) = true).
Proof.
  split; [|split; [|split; [|split]]].
  - vm_compute. reflexivity.
  - vm_compute. reflexivity.
  - apply exact_grid_tiles.
  - intros col row. reflexivity.
  - intros col Hc row Hr. simpl in Hc, Hr.
    repeat (destruct Hc as [<- | Hc]);
      repeat (destruct Hr as [<- | Hr]); try contradiction;
      vm_compute; reflexivity.
Qed.

Lemma grid_tiles_page_witness :
  PrimFloat.ltb (snd (card_xy compute_grid 1 (3 + 1)))
                (snd (card_xy compute_grid 1 3)) = true.
Proof.
  refine (proj2 (proj2 (proj2 (proj2 grid_tiles_page))) 1 _ 3 _).
  - simpl. auto.
  - simpl. auto.
Defined.

(** ** Slot to cell *)

(** ** The deck *)

Lemma firstn_repeat {A} (x : A) (a b : nat) :
  (a <= b)%nat -> firstn a (repeat x b) = repeat x a.
Proof.
  revert b. induction a as [|a IH]; intros [|b] Hb; simpl;
    try reflexivity; try lia.
  f_equal. apply IH. lia.
Qed.

Lemma firstn_app_repeat {A} (n : nat) (l : list A) (x : A) :
  firstn n (firstn n l ++ repeat x n) =
  firstn n l ++ repeat x (n - Nat.min (List.length l) n).
Proof.
  rewrite firstn_app, firstn_firstn, Nat.min_id, length_firstn.
  f_equal. rewrite (Nat.min_comm n). apply firstn_repeat. lia.
Qed.

(** C1: the deck has length 10 for every input; it is the first
    min(n,10) parsed cards in input order followed by blank cards (empty
    question, empty back text, no colour key); cards beyond the tenth are
    dropped. *)
Theorem deck_has_ten_cards (cards : list card) :
  let n := List.length cards in
  List.length (Pdf.cards10 cards) = 10%nat
  /\ Pdf.cards10 cards =
       firstn 10 cards ++ repeat Pdf.blank_card (10 - Nat.min n 10)
  /\ (forall i, (i < Nat.min n 10)%nat ->
        nth_error (Pdf.cards10 cards) i = nth_error cards i)
  /\ (forall i, (Nat.min n 10 <= i < 10)%nat ->
        nth_error (Pdf.cards10 cards) i = Some Pdf.blank_card)
  /\ card_text Pdf.blank_card (py "question") = []
  /\ card_text Pdf.blank_card (py "texte") = []
  /\ card_get Pdf.blank_card (py "card_color_key") = None.
Proof.
  intros n.
  assert (E : Pdf.cards10 cards =
              firstn 10 cards ++ repeat Pdf.blank_card (10 - Nat.min n 10)).
  { unfold Pdf.cards10. change (Z.to_nat NB_CARTES) with 10%nat.
    apply firstn_app_repeat. }
  assert (L : List.length (firstn 10 cards) = Nat.min n 10).
  { rewrite length_firstn. apply Nat.min_comm. }
  split; [|split; [exact E|split; [|split]]].
  - rewrite E, length_app, L, repeat_length. lia.
  - intros i Hi. rewrite E, nth_error_app1 by lia.
    rewrite nth_error_firstn.
    destruct (Nat.ltb_spec i 10); [reflexivity | lia].
  - intros i Hi. rewrite E, nth_error_app2 by lia. rewrite L.
    apply nth_error_repeat. lia.
  - repeat split.
Qed.

Lemma deck_has_ten_cards_witness :
  nth_error (Pdf.cards10 [sample_card; markup_card; sample_card]) 1
    = Some markup_card
  /\ nth_error (Pdf.cards10 [sample_card; markup_card; sample_card]) 7
    = Some Pdf.blank_card.
Proof.
  destruct (deck_has_ten_cards [sample_card; markup_card; sample_card])
    as (_ & _ & Hparsed & Hblank & _).
  split.
  - rewrite (Hparsed 1%nat); [reflexivity | simpl; lia].
  - apply (Hblank 7%nat). simpl. lia.
Defined.

(** ** White space and stripping *)

Lemma take_drop_while (f : ascii -> bool) (s : pystr) :
  take_while f s ++ drop_while f s = s.
Proof.
  induction s as [|c t IH]; simpl; [reflexivity|].
  destruct (f c); simpl; [now rewrite IH | reflexivity].
Qed.

Lemma take_while_all (f : ascii -> bool) (s : pystr) :
  forallb f (take_while f s) = true.
Proof.
  induction s as [|c t IH]; simpl; [reflexivity|].
  destruct (f c) eqn:E; simpl; [now rewrite E | reflexivity].
Qed.

Lemma drop_while_head (f : ascii -> bool) (s : pystr) (c : ascii) (t : pystr) :
  drop_while f s = c :: t -> f c = false.
Proof.
  induction s as [|x s IH]; simpl; [discriminate|].
  destruct (f x) eqn:E; [exact IH|]. intros [= <- _]. exact E.
Qed.

Lemma take_while_app_stop (f : ascii -> bool) (a : pystr) (c : ascii) (t : pystr) :
  forallb f a = true -> f c = false ->
  take_while f (a ++ c :: t) = a /\ drop_while f (a ++ c :: t) = c :: t.
Proof.
  intros Ha Hc. induction a as [|x a IH]; simpl in *.
  - now rewrite Hc.
  - apply andb_true_iff in Ha as [Hx Ha]. rewrite Hx.
    destruct (IH Ha) as [-> ->]. auto.
Qed.

Lemma drop_while_all (f : ascii -> bool) (a s : pystr) :
  forallb f a = true -> drop_while f (a ++ s) = drop_while f s.
Proof.
  intros Ha. induction a as [|x a IH]; simpl in *; [reflexivity|].
  apply andb_true_iff in Ha as [Hx Ha]. rewrite Hx. auto.
Qed.

Lemma rstrip_nil_iff (s : pystr) : rstrip s = [] <-> forallb is_space s = true.
Proof.
  induction s as [|c t IH]; simpl; [tauto|].
  destruct (rstrip t) as [|r0 r] eqn:E.
  - destruct (is_space c); simpl.
    + rewrite <- IH. tauto.
    + split; discriminate.
  - rewrite andb_true_iff, <- IH. split; [discriminate | intros [_ H]; discriminate].
Qed.

Lemma rstrip_cons (c : ascii) (t : pystr) :
  rstrip (c :: t) =
  if is_space c && forallb is_space t then [] else c :: rstrip t.
Proof.
  simpl. destruct (rstrip t) as [|r0 r] eqn:E.
  - apply rstrip_nil_iff in E. rewrite E, andb_true_r.
    now destruct (is_space c).
  - assert (H : forallb is_space t = false).
    { destruct (forallb is_space t) eqn:F; [|reflexivity].
      apply rstrip_nil_iff in F. congruence. }
    now rewrite H, andb_false_r.
Qed.

Lemma rstrip_idem (s : pystr) : rstrip (rstrip s) = rstrip s.
Proof.
  induction s as [|c t IH]; [reflexivity|].
  rewrite rstrip_cons.
  destruct (is_space c && forallb is_space t) eqn:E; [reflexivity|].
  rewrite rstrip_cons, IH.
  apply andb_false_iff in E as [E | E].
  - now rewrite E.
  - assert (F : forallb is_space (rstrip t) = false).
    { destruct (forallb is_space (rstrip t)) eqn:F; [|reflexivity].
      apply rstrip_nil_iff in F. rewrite IH in F.
      apply rstrip_nil_iff in F. congruence. }
    now rewrite F, andb_false_r.
Qed.

Lemma rstrip_app_spaces (s ws : pystr) :
  forallb is_space ws = true -> rstrip (s ++ ws) = rstrip s.
Proof.
  intros Hw. induction s as [|c t IH].
  - simpl. now apply rstrip_nil_iff.
  - cbn [app]. rewrite !rstrip_cons, IH, forallb_app, Hw, andb_true_r.
    reflexivity.
Qed.

Lemma strip_rstrip (s : pystr) : strip (rstrip s) = strip s.
Proof. unfold strip. now rewrite rstrip_idem. Qed.

Lemma strip_app_spaces (s ws : pystr) :
  forallb is_space ws = true -> strip (s ++ ws) = strip s.
Proof. intros Hw. unfold strip. now rewrite rstrip_app_spaces. Qed.

Lemma rstrip_no_space (s : pystr) :
  forallb (fun c => negb (is_space c)) s = true -> rstrip s = s.
Proof.
  induction s as [|c t IH]; [reflexivity|]. simpl forallb.
  rewrite andb_true_iff. intros [Hc Ht]. rewrite rstrip_cons, (IH Ht).
  apply negb_true_iff in Hc. now rewrite Hc.
Qed.

Lemma strip_no_space (s : pystr) :
  forallb (fun c => negb (is_space c)) s = true -> strip s = s.
Proof.
  intros H. unfold strip, lstrip. rewrite (rstrip_no_space _ H).
  destruct s as [|c t]; [reflexivity|]. simpl in *.
  apply andb_true_iff in H as [Hc _]. apply negb_true_iff in Hc.
  now rewrite Hc.
Qed.

Lemma rstrip_drop_while (s : pystr) :
  rstrip s = s -> rstrip (drop_while is_space s) = drop_while is_space s.
Proof.
  induction s as [|c t IH]; [reflexivity|]. intros H. simpl.
  destruct (is_space c) eqn:E; [|exact H].
  apply IH. rewrite rstrip_cons in H.
  destruct (is_space c && forallb is_space t); [discriminate|].
  now injection H.
Qed.

Lemma drop_while_idem (f : ascii -> bool) (s : pystr) :
  drop_while f (drop_while f s) = drop_while f s.
Proof.
  induction s as [|c t IH]; [reflexivity|]. simpl.
  destruct (f c) eqn:E; [exact IH|]. simpl. now rewrite E.
Qed.

Lemma strip_idem (s : pystr) : strip (strip s) = strip s.
Proof.
  unfold strip, lstrip.
  rewrite (rstrip_drop_while (rstrip s) (rstrip_idem s)).
  apply drop_while_idem.
Qed.

Lemma In_rstrip (x : ascii) (s : pystr) :
  In x s -> is_space x = false -> In x (rstrip s).
Proof.
  intros Hin Hx. induction s as [|c t IH]; [contradiction|].
  rewrite rstrip_cons.
  destruct (is_space c && forallb is_space t) eqn:E.
  - exfalso. apply andb_true_iff in E as [Ec Et].
    destruct Hin as [-> | Hin]; [congruence|].
    rewrite forallb_forall in Et. specialize (Et x Hin). congruence.
  - destruct Hin as [-> | Hin]; [now left | right; auto].
Qed.

Lemma In_drop_while (x : ascii) (s : pystr) :
  In x s -> is_space x = false -> In x (drop_while is_space s).
Proof.
  intros Hin Hx. induction s as [|c t IH]; [contradiction|]. simpl.
  destruct (is_space c) eqn:E; [|exact Hin].
  destruct Hin as [-> | Hin]; [congruence | auto].
Qed.

Lemma In_strip (x : ascii) (s : pystr) :
  In x s -> is_space x = false -> In x (strip s).
Proof.
  intros Hin Hx. unfold strip, lstrip.
  apply In_drop_while; [|exact Hx]. now apply In_rstrip.
Qed.

(** ** The inline colour tag *)

Lemma not_rparen_false (c : ascii) : not_rparen c = false <-> c = rparen.
Proof. unfold not_rparen. rewrite negb_false_iff. apply chr_eqb_eq. Qed.

Lemma chr_eqb_sym (a b : ascii) : chr_eqb a b = chr_eqb b a.
Proof. unfold chr_eqb. apply Ascii.eqb_sym. Qed.

Lemma no_rparen_forallb (l : pystr) :
  existsb (chr_eqb rparen) l = false <-> forallb not_rparen l = true.
Proof.
  induction l as [|c t IH]; simpl; [tauto|].
  unfold not_rparen at 1. rewrite (chr_eqb_sym c rparen).
  destruct (chr_eqb rparen c); simpl; [|exact IH].
  split; intros H; discriminate H.
Qed.

Lemma first_rparen (l : pystr) :
  existsb (chr_eqb rparen) l = true ->
  exists a b, l = a ++ rparen :: b /\ forallb not_rparen a = true.
Proof.
  induction l as [|c t IH]; simpl; [discriminate|].
  destruct (chr_eqb rparen c) eqn:E.
  - intros _. apply chr_eqb_eq in E. subst c. exists [], t. auto.
  - simpl. intros H. destruct (IH H) as (a & b & -> & Ha).
    exists (c :: a), b. split; [reflexivity|]. simpl. rewrite Ha, andb_true_r.
    unfold not_rparen. apply negb_true_iff.
    now rewrite chr_eqb_sym.
Qed.

Lemma match_group_intro (c ws : pystr) :
  c <> [] -> forallb not_rparen c = true -> forallb is_space ws = true ->
  match_group (c ++ rparen :: ws) = Some c.
Proof.
  intros Hne Hc Hw. unfold match_group.
  destruct (take_while_app_stop not_rparen c rparen ws Hc) as [-> ->].
  - now apply not_rparen_false.
  - destruct c; [congruence|]. now rewrite Hw.
Qed.

Lemma match_group_elim (r g : pystr) :
  match_group r = Some g ->
  exists ws, r = g ++ rparen :: ws /\ g <> [] /\
             forallb not_rparen g = true /\ forallb is_space ws = true.
Proof.
  unfold match_group. intros H.
  pose proof (take_drop_while not_rparen r) as E.
  pose proof (take_while_all not_rparen r) as A.
  destruct (take_while not_rparen r) as [|g0 g'] eqn:T; [discriminate|].
  destruct (drop_while not_rparen r) as [|d t] eqn:D; [discriminate|].
  destruct (forallb is_space t) eqn:W; [|discriminate].
  injection H as <-. apply drop_while_head in D.
  apply not_rparen_false in D. subst d.
  exists t. repeat split; auto. discriminate.
Qed.

(** A closing parenthesis met before the group's own one ends the match
    attempt: what follows it is not white space. *)
Lemma match_group_blocked (pre rest : pystr) :
  existsb (chr_eqb rparen) pre = true ->
  match_group (pre ++ lparen :: rest) = None.
Proof.
  intros H. destruct (first_rparen pre H) as (a & b & -> & Ha).
  unfold match_group. rewrite <- app_assoc. cbn [app].
  destruct (take_while_app_stop not_rparen a rparen (b ++ lparen :: rest) Ha)
    as [-> ->]; [now apply not_rparen_false|].
  destruct a; [reflexivity|].
  rewrite forallb_app. cbn [forallb].
  change (is_space lparen) with false. cbn [andb].
  now rewrite andb_false_r.
Qed.

Lemma no_open_cons (x : ascii) (pre : pystr) :
  no_open (x :: pre) = true ->
  (chr_eqb x lparen = true -> existsb (chr_eqb rparen) pre = true)
  /\ no_open pre = true.
Proof.
  simpl. rewrite andb_true_iff. intros [H1 H2]. split; [|exact H2].
  intros E. now rewrite E in H1.
Qed.

Section Group.

Variables c ws : pystr.
Hypothesis c_nonempty : c <> [].
Hypothesis c_closed : forallb not_rparen c = true.
Hypothesis ws_blank : forallb is_space ws = true.

Lemma re_search_tag_intro (pre : pystr) :
  no_open pre = true -> re_search_tag (pre ++ group_tail c ws) = Some c.
Proof.
  unfold group_tail. induction pre as [|x pre IH]; intros Hn.
  - cbn [app re_search_tag]. rewrite chr_eqb_refl.
    now rewrite match_group_intro.
  - apply no_open_cons in Hn as [Hx Hn]. cbn [app re_search_tag].
    destruct (chr_eqb x lparen) eqn:E; [|auto].
    rewrite (match_group_blocked pre _ (Hx eq_refl)). auto.
Qed.

Lemma tag_matches_here_intro (pre : pystr) :
  no_open pre = true -> tag_matches_here (pre ++ group_tail c ws) = forallb is_space pre.
Proof.
  unfold group_tail. induction pre as [|x pre IH]; intros Hn.
  - unfold tag_matches_here. cbn [app drop_while forallb].
    change (is_space lparen) with false. cbv iota. rewrite chr_eqb_refl.
    now rewrite match_group_intro.
  - apply no_open_cons in Hn as [Hx Hn]. specialize (IH Hn).
    unfold tag_matches_here in *. cbn [app drop_while forallb].
    destruct (is_space x) eqn:S; [exact IH|]. cbn [andb].
    destruct (chr_eqb x lparen) eqn:E; [|reflexivity].
    now rewrite (match_group_blocked pre _ (Hx eq_refl)).
Qed.

Lemma re_sub_tag_intro (pre : pystr) :
  no_open pre = true -> re_sub_tag (pre ++ group_tail c ws) = rstrip pre.
Proof.
  induction pre as [|x pre IH]; intros Hn.
  - pose proof (tag_matches_here_intro [] Hn) as M.
    unfold group_tail in *. cbn [app] in *. cbn [re_sub_tag]. now rewrite M.
  - pose proof (tag_matches_here_intro (x :: pre) Hn) as M.
    apply no_open_cons in Hn as [_ Hn]. specialize (IH Hn).
    unfold group_tail in *. cbn [app] in *. cbn [re_sub_tag]. rewrite M, rstrip_cons.
    cbn [forallb].
    destruct (is_space x && forallb is_space pre); [reflexivity|].
    now rewrite IH.
Qed.

End Group.

Lemma re_search_tag_elim (s g : pystr) :
  re_search_tag s = Some g ->
  exists pre ws, ends_with_group s pre g ws /\ no_open pre = true /\
                 g <> [] /\ forallb not_rparen g = true.
Proof.
  unfold ends_with_group, group_tail. revert g.
  induction s as [|x s IH]; intros g; simpl.
  - discriminate.
  - destruct (chr_eqb x lparen) eqn:E.
    + destruct (match_group s) as [g'|] eqn:G.
      * intros [= <-]. apply chr_eqb_eq in E. subst x.
        destruct (match_group_elim _ _ G) as (ws & -> & Hne & Hg & Hw).
        exists [], ws. auto.
      * intros H. destruct (IH g H) as (pre & ws & [-> Hw] & Hn & Hne & Hg).
        exists (x :: pre), ws. repeat split; auto.
        simpl. rewrite E, Hn, andb_true_r.
        destruct (existsb (chr_eqb rparen) pre) eqn:X; [reflexivity|].
        exfalso. apply no_rparen_forallb in X.
        assert (F : match_group ((pre ++ lparen :: g) ++ rparen :: ws)
                    = Some (pre ++ lparen :: g)).
        { apply match_group_intro; auto.
          - destruct pre; discriminate.
          - rewrite forallb_app, X. simpl. now rewrite Hg. }
        rewrite <- app_assoc in F. cbn [app] in F. congruence.
    + intros H. destruct (IH g H) as (pre & ws & [-> Hw] & Hn & Hne & Hg).
      exists (x :: pre), ws. repeat split; auto.
      simpl. now rewrite E, Hn.
Qed.

Lemma lower_keeps_rparen (s : pystr) :
  In rparen s -> In rparen (lower s).
Proof.
  intros H. unfold lower. change rparen with (lower_chr rparen).
  now apply in_map.
Qed.

Lemma dict_find_key {V} (k : pystr) (d : dict V) (v : V) :
  dict_find k d = Some v -> In k (map fst d).
Proof.
  induction d as [|[k' v'] d IH]; simpl; [discriminate|].
  destruct (str_eqb k k') eqn:E.
  - apply str_eqb_eq in E. auto.
  - auto.
Qed.

Lemma color_name_cases (k : pystr) :
  is_color_name k = true -> In k filename_keys.
Proof.
  unfold is_color_name.
  destruct (dict_find k COLOR_MAP) eqn:E; [|discriminate].
  intros _. exact (dict_find_key _ _ _ E).
Qed.

Lemma color_name_plain (k : pystr) :
  is_color_name k = true -> k <> [] /\ forallb not_rparen k = true.
Proof.
  intros H. apply color_name_cases in H. simpl in H.
  repeat (destruct H as [<- | H]; [split; [discriminate | reflexivity]|]).
  destruct H.
Qed.

Lemma color_group_plain (c : pystr) :
  is_color_name (strip (lower c)) = true ->
  c <> [] /\ forallb not_rparen c = true.
Proof.
  intros H. apply color_name_plain in H as [Hne Hk]. split.
  - intros ->. now apply Hne.
  - apply no_rparen_forallb.
    destruct (existsb (chr_eqb rparen) c) eqn:X; [|reflexivity].
    exfalso. apply existsb_exists in X as (x & Hin & Hx).
    apply chr_eqb_eq in Hx. subst x.
    apply lower_keeps_rparen in Hin.
    apply In_strip in Hin; [|reflexivity].
    rewrite forallb_forall in Hk. specialize (Hk _ Hin). discriminate.
Qed.

(** The colour-tag step in full: the tag is found exactly when the text ends,
    white space tolerated, with a group "(c)" such that no opening parenthesis
    before the group is left without a closing one after it, and c
    lower-cased and trimmed is a colour name; then the key is that name and
    the question is the text before the group, trimmed.  In every other case
    the key is unset and the text untouched. *)
Theorem color_tag_spec (q : pystr) :
  (forall pre c ws,
      ends_with_group q pre c ws -> no_open pre = true ->
      is_color_name (strip (lower c)) = true ->
      color_tag q = (strip pre, Some (strip (lower c))))
  /\ ((forall pre c ws,
         ends_with_group q pre c ws -> no_open pre = true ->
         is_color_name (strip (lower c)) = false) ->
      color_tag q = (q, None)).
Proof.
  split.
  - intros pre c ws [-> Hw] Hn Hc.
    destruct (color_group_plain c Hc) as [Hne Hcl].
    unfold color_tag.
    rewrite (re_search_tag_intro c ws Hne Hcl Hw pre Hn).
    unfold is_color_name in Hc. cbv zeta.
    destruct (dict_find (strip (lower c)) COLOR_MAP); [|discriminate].
    rewrite (re_sub_tag_intro c ws Hne Hcl Hw pre Hn).
    now rewrite strip_rstrip.
  - intros H. unfold color_tag.
    destruct (re_search_tag q) as [g|] eqn:S; [|reflexivity].
    destruct (re_search_tag_elim _ _ S) as (pre & ws & He & Hn & _).
    specialize (H pre g ws He Hn). unfold is_color_name in H. cbv zeta.
    destruct (dict_find (strip (lower g)) COLOR_MAP); [discriminate|reflexivity].
Qed.

Lemma color_tag_spec_witness :
  color_tag (py "Capital of France  ( Rouge ) ")
  = (py "Capital of France", Some (py "rouge"))
  /\ color_tag (py "Capital of France (violet)")
     = (py "Capital of France (violet)", None).
Proof.
  split.
  - apply (proj1 (color_tag_spec (py "Capital of France  ( Rouge ) "))
             (py "Capital of France  ") (py " Rouge ") (py " ")).
    + split; reflexivity.
    + reflexivity.
    + reflexivity.
  - vm_compute. reflexivity.
Defined.

(** C4 at the three examples of the specification. *)
Theorem color_tag_examples :
  color_tag (py "Capital of France (rouge)")
    = (py "Capital of France", Some (py "rouge"))
  /\ color_tag (py "Capital of France") = (py "Capital of France", None)
  /\ color_tag (py "Capital of France (violet)")
    = (py "Capital of France (violet)", None).
Proof.
  repeat split; vm_compute; reflexivity.
Qed.

(** Where C4 fails: a question that ends with "(rouge)" after an earlier,
    unclosed parenthesis keeps its text and gets no colour key, because the
    group of the pattern starts at the leftmost "(" that has no ")" before
    the final one, and that group's content is "a (rouge". *)
Lemma color_tag_unclosed_parenthesis :
  ends_with_group (py "x (a (rouge)") (py "x (a ") (py "rouge") []
  /\ is_color_name (strip (lower (py "rouge"))) = true
  /\ re_search_tag (py "x (a (rouge)") = Some (py "a (rouge")
  /\ color_tag (py "x (a (rouge)") = (py "x (a (rouge)", None).
Proof.
  repeat split; vm_compute; reflexivity.
Qed.

(** ** Headered rows *)

Lemma lower_chr_idem (c : ascii) : lower_chr (lower_chr c) = lower_chr c.
Proof. destruct c as [[] [] [] [] [] [] [] []]; reflexivity. Qed.

Lemma is_space_lower_chr (c : ascii) : is_space (lower_chr c) = is_space c.
Proof. destruct c as [[] [] [] [] [] [] [] []]; reflexivity. Qed.

Lemma normalize_header_no_space (h : pystr) :
  forallb not_space (normalize_header h) = true.
Proof.
  unfold normalize_header. apply forallb_forall. intros x Hx.
  apply filter_In in Hx. exact (proj2 Hx).
Qed.

Lemma filter_all (f : ascii -> bool) (s : pystr) :
  forallb f s = true -> filter f s = s.
Proof.
  induction s as [|c t IH]; simpl; [reflexivity|].
  rewrite andb_true_iff. intros [-> Ht]. now rewrite IH.
Qed.

Lemma lower_filter_lower (s : pystr) :
  lower (filter not_space (lower s)) = filter not_space (lower s).
Proof.
  unfold lower. induction s as [|c t IH]; simpl; [reflexivity|].
  destruct (not_space (lower_chr c)); simpl; [|exact IH].
  now rewrite lower_chr_idem, IH.
Qed.

Lemma normalize_header_idem (h : pystr) :
  normalize_header (normalize_header h) = normalize_header h.
Proof.
  pose proof (normalize_header_no_space h) as N.
  unfold normalize_header at 1.
  rewrite (strip_no_space _ N).
  unfold normalize_header at 1. fold not_space.
  rewrite lower_filter_lower. fold not_space in N.
  apply filter_all. exact N.
Qed.

Lemma dict_find_set_same {V} (k : pystr) (v : V) (d : dict V) :
  dict_find k (dict_set k v d) = Some v.
Proof.
  induction d as [|[k' v'] d IH]; simpl.
  - now rewrite str_eqb_refl.
  - destruct (str_eqb k k') eqn:E; simpl; now rewrite E.
Qed.

Lemma dict_find_set_other {V} (k k0 : pystr) (v : V) (d : dict V) :
  k <> k0 -> dict_find k (dict_set k0 v d) = dict_find k d.
Proof.
  intros Hne. apply str_eqb_neq in Hne.
  induction d as [|[k' v'] d IH]; simpl.
  - now rewrite Hne.
  - destruct (str_eqb k0 k') eqn:E; simpl.
    + apply str_eqb_eq in E. subst k'. now rewrite Hne.
    + now rewrite IH.
Qed.

Lemma dict_set_keys {V} (k : pystr) (v : V) (d : dict V) (x : pystr) :
  In x (map fst (dict_set k v d)) -> x = k \/ In x (map fst d).
Proof.
  induction d as [|[k' v'] d IH]; simpl.
  - intros [<- | []]. now left.
  - destruct (str_eqb k k') eqn:E; simpl.
    + tauto.
    + intros [<- | H]; [tauto|]. destruct (IH H); tauto.
Qed.

Lemma dict_find_absent {V} (k : pystr) (d : dict V) :
  ~ In k (map fst d) -> dict_find k d = None.
Proof.
  induction d as [|[k' v'] d IH]; simpl; [reflexivity|].
  intros H. destruct (str_eqb k k') eqn:E.
  - apply str_eqb_eq in E. subst. tauto.
  - apply IH. tauto.
Qed.

Lemma row_dict_from_keys (hs : list pystr) (d : dict pystr) (r : list pystr)
    (x : pystr) :
  In x (map fst (row_dict_from d hs r)) -> In x (map fst d) \/ In x hs.
Proof.
  revert d r. induction hs as [|h hs IH]; intros d r; simpl; [tauto|].
  intros H. destruct (IH _ _ H) as [H' | H']; [|tauto].
  destruct (dict_set_keys _ _ _ _ H'); [subst; tauto | tauto].
Qed.

Lemma row_dict_from_absent (hs : list pystr) (d : dict pystr) (r : list pystr)
    (h : pystr) :
  ~ In h hs -> dict_find h (row_dict_from d hs r) = dict_find h d.
Proof.
  revert d r. induction hs as [|h0 hs IH]; intros d r Hn; simpl; [reflexivity|].
  rewrite IH by (simpl in Hn; tauto).
  apply dict_find_set_other. simpl in Hn. intros ->. tauto.
Qed.

Lemma cell_tl (r : list pystr) (j : nat) : cell (tl r) j = cell r (S j).
Proof. unfold cell. destruct r; simpl; [now destruct j | reflexivity]. Qed.

(** The value a header is bound to is the cell under its rightmost column. *)
Lemma row_dict_from_rightmost (hs : list pystr) (d : dict pystr)
    (r : list pystr) (h : pystr) (j : nat) :
  nth_error hs j = Some h ->
  (forall j', (j < j')%nat -> nth_error hs j' <> Some h) ->
  dict_find h (row_dict_from d hs r) = Some (cell r j).
Proof.
  revert d r j. induction hs as [|h0 hs IH]; intros d r j Hj Hlast.
  - destruct j; discriminate.
  - destruct j as [|j]; simpl in Hj |- *.
    + injection Hj as ->.
      rewrite row_dict_from_absent, dict_find_set_same.
      * unfold cell. now destruct r.
      * intros Hin. apply In_nth_error in Hin as [n Hn].
        apply (Hlast (S n)); [lia | exact Hn].
    + rewrite (IH _ (tl r) j Hj), cell_tl; [reflexivity|].
      intros j' Hlt. apply (Hlast (S j')). lia.
Qed.

Lemma find_item_normalized (nk : pystr) (d : dict pystr) :
  (forall kk, In kk (map fst d) -> normalize_header kk = kk) ->
  find_item nk d = option_map strip (dict_find nk d).
Proof.
  induction d as [|[kk vv] d IH]; simpl; intros H; [reflexivity|].
  rewrite (H kk) by now left. rewrite (str_eqb_sym kk nk).
  destruct (str_eqb nk kk); [reflexivity|]. apply IH. auto.
Qed.

Lemma row_dict_keys_normalized (first r : list pystr) (kk : pystr) :
  In kk (map fst (row_dict (map normalize_header first) r)) ->
  normalize_header kk = kk.
Proof.
  intros H. apply row_dict_from_keys in H as [[] | H].
  apply in_map_iff in H as (h & <- & _). apply normalize_header_idem.
Qed.

Lemma strip_cell (r : list pystr) (j : nat) : strip (cell r j) = cell r j.
Proof.
  unfold cell. destruct (nth_error r j); [apply strip_idem | reflexivity].
Qed.

(** C10: when several header cells normalise to the same string, the field
    read for a row is the cell under the rightmost of those columns (the
    empty string when the row is too short to have it). *)
Theorem duplicate_header_rightmost_wins
    (first r keys_before : list pystr) (k : pystr) (keys_after : list pystr)
    (fallback : pystr) (j : nat) :
  nth_error (map normalize_header first) j = Some (normalize_header k) ->
  (forall j', (j < j')%nat ->
     nth_error (map normalize_header first) j' <> Some (normalize_header k)) ->
  (forall k', In k' keys_before ->
     ~ In (normalize_header k') (map normalize_header first)) ->
  dict_find (normalize_header k) (row_dict (map normalize_header first) r)
    = Some (cell r j)
  /\ get_field (row_dict (map normalize_header first) r)
               (keys_before ++ k :: keys_after) fallback
     = cell r j.
Proof.
  intros Hj Hlast Hbefore. set (headers := map normalize_header first) in *.
  assert (F : dict_find (normalize_header k) (row_dict headers r) = Some (cell r j))
    by (apply row_dict_from_rightmost; assumption).
  split; [exact F|].
  pose proof (fun nk => find_item_normalized nk (row_dict headers r)
                          (row_dict_keys_normalized first r)) as N.
  induction keys_before as [|k0 kb IH]; cbn [app get_field].
  - rewrite N, F. simpl. apply strip_cell.
  - rewrite N, dict_find_absent.
    + simpl. apply IH. intros k' Hin. apply Hbefore. now right.
    + intros Hin. apply row_dict_from_keys in Hin as [[] | Hin].
      apply (Hbefore k0); [now left | exact Hin].
Qed.

Lemma duplicate_header_rightmost_wins_witness :
  get_field (row_dict (map normalize_header [py " Question"; py "reponse"; py "QUES TION "])
                      [py "left"; py "back"; py " right "])
            question_keys [] = py "right".
Proof.
  refine (proj2 (duplicate_header_rightmost_wins
           [py " Question"; py "reponse"; py "QUES TION "]
           [py "left"; py "back"; py " right "]
           [] (py "question") [py "q"] [] 2%nat _ _ _)).
  - reflexivity.
  - intros j' Hlt. do 3 (destruct j' as [|j']; [lia|]).
    destruct j'; discriminate.
  - intros k' [].
Defined.

(** ** Reasoning about the program monad *)

Module Logic.
Import Pdf.

Section Rules.

Context {A B : Type}.

Lemma hoare_conseq (P P' : State -> Prop) (m : M A)
    (Q Q' : result A -> State -> Prop) :
  hoare P' m Q' -> (forall s, P s -> P' s) ->
  (forall r s, Q' r s -> Q r s) -> hoare P m Q.
Proof. intros H HP HQ s Hs. apply HQ, H, HP, Hs. Qed.

Lemma hoare_ret (P : State -> Prop) (a : A) (Q : result A -> State -> Prop) :
  (forall s, P s -> Q (Ok a) s) -> hoare P (ret a) Q.
Proof. intros H s Hs. now apply H. Qed.

Lemma hoare_raise (P : State -> Prop) (Q : result A -> State -> Prop) :
  (forall s, P s -> Q Raised s) -> hoare P raise Q.
Proof. intros H s Hs. now apply H. Qed.

Lemma hoare_bind (P : State -> Prop) (m : M A) (k : A -> M B)
    (Q1 : result A -> State -> Prop) (Q : result B -> State -> Prop) :
  hoare P m Q1 ->
  (forall s, Q1 Raised s -> Q Raised s) ->
  (forall a, hoare (Q1 (Ok a)) (k a) Q) ->
  hoare P (bind m k) Q.
Proof.
  intros Hm Hr Hk s Hs. specialize (Hm s Hs). unfold bind.
  destruct (m s) as [[a|] s1]; simpl in *.
  - now apply Hk.
  - now apply Hr.
Qed.

Lemma hoare_try (P : State -> Prop) (m h : M A)
    (Q1 Q : result A -> State -> Prop) :
  hoare P m Q1 ->
  (forall a s, Q1 (Ok a) s -> Q (Ok a) s) ->
  hoare (Q1 Raised) h Q ->
  hoare P (try_ m h) Q.
Proof.
  intros Hm Hok Hh s Hs. specialize (Hm s Hs). unfold try_.
  destruct (m s) as [[a|] s1]; simpl in *.
  - now apply Hok.
  - now apply Hh.
Qed.

Lemma preserves_bind (I : State -> Prop) (m : M A) (k : A -> M B) :
  preserves I m -> (forall a, preserves I (k a)) -> preserves I (bind m k).
Proof.
  intros Hm Hk. apply (hoare_bind I m k (fun _ => I)); auto.
Qed.

Lemma preserves_try (I : State -> Prop) (m h : M A) :
  preserves I m -> preserves I h -> preserves I (try_ m h).
Proof.
  intros Hm Hh. apply (hoare_try I m h (fun _ => I)); auto.
Qed.

Lemma preserves_ret (I : State -> Prop) (a : A) : preserves I (ret a).
Proof. now apply hoare_ret. Qed.

Lemma preserves_raise (I : State -> Prop) : preserves I (@raise A).
Proof. now apply hoare_raise. Qed.

Lemma preserves_if (I : State -> Prop) (b : bool) (m1 m2 : M A) :
  preserves I m1 -> preserves I m2 -> preserves I (if b then m1 else m2).
Proof. now destruct b. Qed.

Lemma preserves_for_each (I : State -> Prop) (l : list A) (body : A -> M unit) :
  (forall x, preserves I (body x)) -> preserves I (for_each l body).
Proof.
  intros Hb. induction l as [|x l IH]; simpl.
  - intros s Hs. exact Hs.
  - intros s Hs. specialize (Hb x s Hs). unfold bind.
    destruct (body x s) as [[[]|] s1]; simpl in *; [now apply IH | exact Hb].
Qed.

Lemma total_bind (m : M A) (k : A -> M B) :
  total m -> (forall a, total (k a)) -> total (bind m k).
Proof.
  intros Hm Hk s. destruct (Hm s) as [a Ha]. unfold bind.
  destruct (m s) as [[a'|] s1]; simpl in *; [apply Hk | discriminate].
Qed.

Lemma total_try (m h : M A) : total h -> total (try_ m h).
Proof.
  intros Hh s. unfold try_. destruct (m s) as [[a|] s1]; simpl; eauto.
Qed.

Lemma total_ret (a : A) : total (ret a).
Proof. intros s. now exists a. Qed.

Lemma total_if (b : bool) (m1 m2 : M A) :
  total m1 -> total m2 -> total (if b then m1 else m2).
Proof. now destruct b. Qed.

Lemma total_for_each (l : list A) (body : A -> M unit) :
  (forall x, total (body x)) -> total (for_each l body).
Proof.
  intros Hb. induction l as [|x l IH]; simpl.
  - intros s. now exists tt.
  - intros s. destruct (Hb x s) as [[] Hx]. unfold bind.
    destruct (body x s) as [[[]|] s1]; simpl in *; [apply IH | discriminate].
Qed.

End Rules.

Lemma preserves_guard (I : State -> Prop) (b : bool) : preserves I (guard b).
Proof. destruct b; [apply preserves_ret | apply preserves_raise]. Qed.

Lemma total_emit (e : event) : total (emit e).
Proof. intros s. now exists tt. Qed.

Lemma bind_assoc {A B C} (m : M A) (k : A -> M B) (k' : B -> M C) (s : State) :
  bind (bind m k) k' s = bind m (fun a => bind (k a) k') s.
Proof.
  unfold bind. destruct (m s) as [[a|] s1]; [|reflexivity].
  now destruct (k a s1) as [[b|] s2].
Qed.

Lemma bind_ext {A B} (m : M A) (k k' : A -> M B) (s : State) :
  (forall a s', k a s' = k' a s') -> bind m k s = bind m k' s.
Proof.
  intros H. unfold bind. destruct (m s) as [[a|] s1]; [apply H | reflexivity].
Qed.

End Logic.

(** ** No cell is outlined *)

Module Border.
Import Pdf Logic.

Lemma emit_plain (e : event) :
  is_border_event e = false -> preserves no_border_logged (emit e).
Proof.
  intros He s Hs. unfold no_border_logged in *. simpl.
  apply Forall_app. split; [exact Hs | now constructor].
Qed.

Lemma create_file_plain (p : path) : preserves no_border_logged (create_file p).
Proof.
  intros s Hs. unfold no_border_logged in *. simpl.
  apply Forall_app. split; [exact Hs | now constructor].
Qed.

Lemma delete_file_plain (p : path) : preserves no_border_logged (delete_file p).
Proof.
  intros s Hs. unfold no_border_logged in *. simpl.
  apply Forall_app. split; [exact Hs | now constructor].
Qed.

Lemma register_plain (p : path) : preserves no_border_logged (register p).
Proof. intros s Hs. exact Hs. Qed.

Ltac walk :=
  repeat first
    [ apply preserves_ret
    | apply preserves_raise
    | apply preserves_guard
    | apply register_plain
    | apply create_file_plain
    | apply delete_file_plain
    | apply emit_plain; reflexivity
    | apply preserves_try
    | apply preserves_for_each; intros ?
    | apply preserves_bind; [|intros ?]
    | match goal with
      | |- preserves _ (match ?x with _ => _ end) => destruct x
      | |- preserves _ (if ?b then _ else _) => destruct b
      end ].

Lemma text_box_plain env x y w h text style :
  preserves no_border_logged (draw_centered_text_in_box env x y w h text style).
Proof. unfold draw_centered_text_in_box. walk. Qed.

Lemma composite_plain env i : preserves no_border_logged (composite env i).
Proof. unfold composite. walk. Qed.

Lemma recto_card_plain env grid deck default have_image i :
  preserves no_border_logged (recto_card env grid deck default have_image i).
Proof.
  unfold recto_card. walk.
Qed.

Lemma verso_card_plain env grid deck i :
  preserves no_border_logged (verso_card env grid deck i).
Proof. unfold verso_card. walk. Qed.

Lemma clean_up_plain env : preserves no_border_logged (clean_up env).
Proof.
  intros s Hs. unfold clean_up.
  apply (preserves_for_each no_border_logged (to_clean s) (remove_temp env));
    [|exact Hs].
  intros p. unfold remove_temp. walk.
Qed.

Lemma build_pdf_plain env cards default uploaded :
  preserves no_border_logged (build_pdf env cards default uploaded).
Proof.
  unfold build_pdf. walk; apply clean_up_plain.
Qed.

End Border.

(** C7 on the code: whatever the cards, the colour, the image and the
    environment, the log of build_pdf holds no stroked rectangle, no line
    width and no stroke colour, so no cell is outlined on either page;
    draw_card_border, which would log the 1-unit light-grey outline, is
    never called. *)
Theorem build_pdf_draws_no_border (env : Pdf.Env) (cards : list card)
    (default_back_color : Color) (uploaded_image_file : bool) :
  no_border_logged
    (snd (Pdf.build_pdf env cards default_back_color uploaded_image_file Pdf.init))
  /\ (forall x y w h,
        Pdf.log (snd (Pdf.draw_card_border x y w h lightgrey Pdf.init))
        = [Pdf.SetLineWidth 1; Pdf.SetStrokeColor lightgrey;
           Pdf.Rect x y w h true false]).
Proof.
  split.
  - apply Border.build_pdf_plain. constructor.
  - reflexivity.
Qed.

(** ** No cards, no document *)

(** C6: when the reader yields no card (a header row alone is such an
    input) the handler reports the failure and does nothing else: build_pdf
    is not run, nothing is drawn or saved, no download is offered. *)
Theorem no_cards_no_document :
  (forall first,
      has_header (map normalize_header first) = true ->
      read_cards_from_rows [first] = [])
  /\ (forall env rows default_back_color uploaded_image_file,
        read_cards_from_rows rows = [] ->
        Pdf.on_generate env (read_cards_from_rows rows) default_back_color
          uploaded_image_file Pdf.init
        = (Pdf.Ok tt, Pdf.mkState [Pdf.StError Pdf.ErrNoCards] [] [])).
Proof.
  split.
  - intros first H. unfold read_cards_from_rows. now rewrite H.
  - intros env rows d u H. now rewrite H.
Qed.

Lemma no_cards_no_document_witness :
  read_cards_from_rows [[py "Question"; py "Reponse"]] = []
  /\ Pdf.on_generate env_fine (read_cards_from_rows [[py "Question"; py "Reponse"]])
       (HexColor 0x2D6CDF) true Pdf.init
     = (Pdf.Ok tt, Pdf.mkState [Pdf.StError Pdf.ErrNoCards] [] []).
Proof.
  split.
  - apply (proj1 no_cards_no_document). reflexivity.
  - apply (proj2 no_cards_no_document). reflexivity.
Defined.

(** ** Temporary files *)

Module Temp.
Import Pdf Logic.

Lemma snoc_split {A} (l l1 l2 : list A) (e e' : A) :
  l ++ [e] = l1 ++ e' :: l2 ->
  (l2 = [] /\ l1 = l /\ e' = e) \/ (exists l2', l2 = l2' ++ [e] /\ l = l1 ++ e' :: l2').
Proof.
  destruct l2 as [|x l2 _] using rev_ind.
  - intros E. apply app_inj_tail in E as [-> ->]. now left.
  - intros E. right. exists l2.
    change (l1 ++ e' :: l2 ++ [x]) with (l1 ++ (e' :: l2) ++ [x]) in E.
    rewrite app_assoc in E. apply app_inj_tail in E as [-> ->]. auto.
Qed.

Lemma precedes_snoc_other a is_b l e :
  precedes a is_b l -> is_b e = false -> precedes a is_b (l ++ [e]).
Proof.
  intros H He l1 e' l2 E Hb.
  destruct (snoc_split _ _ _ _ _ E) as [(_ & _ & ->) | (l2' & _ & ->)].
  - congruence.
  - now apply (H l1 e' l2').
Qed.

Lemma precedes_snoc_after a is_b l e :
  precedes a is_b l -> In a l -> precedes a is_b (l ++ [e]).
Proof.
  intros H Ha l1 e' l2 E Hb.
  destruct (snoc_split _ _ _ _ _ E) as [(_ & -> & _) | (l2' & _ & ->)].
  - exact Ha.
  - now apply (H l1 e' l2').
Qed.

Lemma not_draw_of (e : event) (p : path) :
  is_draw e = false -> is_draw_of p e = false.
Proof. now destruct e. Qed.

Lemma cbd_emit (e : event) :
  is_draw e = false -> preserves created_before_drawn (emit e).
Proof.
  intros He s Hs p. simpl. apply precedes_snoc_other; [apply Hs|].
  now apply not_draw_of.
Qed.

Lemma cbd_create_file (p : path) : preserves created_before_drawn (create_file p).
Proof. intros s Hs q. simpl. now apply precedes_snoc_other; [apply Hs|]. Qed.

Lemma cbd_delete_file (p : path) : preserves created_before_drawn (delete_file p).
Proof. intros s Hs q. simpl. now apply precedes_snoc_other; [apply Hs|]. Qed.

Lemma cbd_register (p : path) : preserves created_before_drawn (register p).
Proof. intros s Hs. exact Hs. Qed.

Lemma drawable_emit (p : path) (e : event) :
  is_draw e = false -> preserves (drawable p) (emit e).
Proof.
  intros He s [Hs Hin]. split.
  - now apply (cbd_emit e He s).
  - simpl. apply in_or_app. now left.
Qed.

Lemma drawable_draw (p : path) x y w h :
  preserves (drawable p) (emit (DrawImage p x y w h)).
Proof.
  intros s [Hs Hin]. split.
  - intros q. simpl. destruct (Z.eqb_spec p q) as [<- | Hne].
    + apply precedes_snoc_after; [apply Hs | exact Hin].
    + apply precedes_snoc_other; [apply Hs|]. simpl. now apply Z.eqb_neq.
  - simpl. apply in_or_app. now left.
Qed.

Ltac structure :=
  first
    [ apply preserves_ret
    | apply preserves_raise
    | apply preserves_guard
    | apply preserves_try
    | apply preserves_for_each; intros ?
    | apply preserves_bind; [|intros ?]
    | match goal with
      | |- preserves _ (match ?x with _ => _ end) => destruct x
      | |- preserves _ (if ?b then _ else _) => destruct b
      end ].

Ltac walk_cbd :=
  repeat first
    [ structure
    | apply cbd_register | apply cbd_create_file | apply cbd_delete_file
    | apply cbd_emit; reflexivity ].

Ltac walk_drawable :=
  repeat first
    [ structure
    | apply drawable_draw
    | apply drawable_emit; reflexivity ].

Lemma text_box_cbd env x y w h text style :
  preserves created_before_drawn (draw_centered_text_in_box env x y w h text style).
Proof. unfold draw_centered_text_in_box. walk_cbd. Qed.

Lemma text_box_drawable p env x y w h text style :
  preserves (drawable p) (draw_centered_text_in_box env x y w h text style).
Proof. unfold draw_centered_text_in_box. walk_drawable. Qed.

Lemma composite_cbd env i :
  hoare created_before_drawn (composite env i) composite_post.
Proof.
  intros s Hs. unfold composite, try_, bind, guard, ret, raise.
  destruct (compose_ok env i); [|now apply (cbd_emit (StError (ErrCompositing i)))].
  destruct (mktemp_ok env i); [|now apply (cbd_emit (StError (ErrCompositing i)))].
  pose proof (cbd_create_file i s Hs) as H1.
  destruct (save_png_ok env i); simpl.
  - split.
    + intros q. simpl.
      apply precedes_snoc_other; [|reflexivity]. apply H1.
    + apply in_or_app. left. apply in_or_app. right. now left.
  - intros q. simpl. apply precedes_snoc_other; [|reflexivity]. apply H1.
Qed.

Lemma recto_card_cbd env grid deck default have_image i :
  preserves created_before_drawn (recto_card env grid deck default have_image i).
Proof.
  unfold recto_card.
  destruct (front_cell i) as [col row]. destruct (card_xy grid col row) as [x y].
  apply preserves_bind; [apply cbd_emit; reflexivity | intros _].
  apply preserves_bind; [apply cbd_emit; reflexivity | intros _].
  apply (hoare_bind _ _ _ composite_post).
  - destruct have_image; [apply composite_cbd | now apply hoare_ret].
  - auto.
  - intros [p|]; cbn [composite_post].
    + apply hoare_conseq with (P' := drawable p) (Q' := fun _ => drawable p);
        [ | auto | intros r s [H _]; exact H ].
      cbv zeta.
      match goal with |- hoare ?P ?m _ => change (preserves P m) end.
      walk_drawable; apply text_box_drawable.
    + apply text_box_cbd.
Qed.

Lemma verso_card_cbd env grid deck i :
  preserves created_before_drawn (verso_card env grid deck i).
Proof. unfold verso_card. walk_cbd. Qed.

Lemma remove_temp_cbd env p : preserves created_before_drawn (remove_temp env p).
Proof. unfold remove_temp. walk_cbd. Qed.

Lemma drawing_cbd env cards default uploaded :
  preserves created_before_drawn (drawing env cards default uploaded).
Proof.
  unfold drawing.
  apply preserves_bind; [walk_cbd | intros have_image].
  apply preserves_bind;
    [apply preserves_for_each; intros i; apply recto_card_cbd | intros _].
  walk_cbd.
Qed.

(** *** Registration *)

Lemma registered_emit p e : preserves (registered p) (emit e).
Proof. intros s Hs. exact Hs. Qed.

Lemma registered_create_file p q : preserves (registered p) (create_file q).
Proof. intros s Hs. exact Hs. Qed.

Lemma registered_delete_file p q : preserves (registered p) (delete_file q).
Proof. intros s Hs. exact Hs. Qed.

Lemma registered_register p q : preserves (registered p) (register q).
Proof. intros s Hs. unfold registered in *. simpl. apply in_or_app. now left. Qed.

Ltac walk_registered :=
  repeat first
    [ structure
    | apply registered_register | apply registered_create_file
    | apply registered_delete_file | apply registered_emit ].

Lemma recto_card_keeps_registered p env grid deck default have_image i :
  preserves (registered p) (recto_card env grid deck default have_image i).
Proof. unfold recto_card. walk_registered. Qed.

Lemma verso_card_keeps_registered p env grid deck i :
  preserves (registered p) (verso_card env grid deck i).
Proof. unfold verso_card. walk_registered. Qed.

Lemma hoare_after_emit {B} (e : event) (k : unit -> M B)
    (Q : result B -> State -> Prop) :
  hoare (fun _ => True) (k tt) Q -> hoare (fun _ => True) (bind (emit e) k) Q.
Proof. intros H s _. unfold bind, emit. now apply H. Qed.

Section Composited.

Variable env : Env.
Variable i : Z.
Hypothesis composed : compose_ok env i = true.
Hypothesis named : mktemp_ok env i = true.
Hypothesis saved : save_png_ok env i = true.

Lemma composite_registers :
  hoare (fun _ => True) (composite env i)
        (fun r s => r = Ok (Some i) /\ registered i s).
Proof.
  intros s _. unfold composite, try_, bind, guard, ret, raise.
  rewrite composed, named, saved. simpl. split; [reflexivity|].
  unfold registered. simpl. apply in_or_app. right. now left.
Qed.

(** The card's file is on the clean-up list when the card is left, whether
    the image was drawn or not, and whether or not the text was accepted. *)
Lemma recto_card_registers grid deck default :
  hoare (fun _ => True) (recto_card env grid deck default true i)
        (fun _ => registered i).
Proof.
  unfold recto_card.
  destruct (front_cell i) as [col row]. destruct (card_xy grid col row) as [x y].
  do 2 apply hoare_after_emit.
  apply (hoare_bind _ _ _ (fun r s => r = Ok (Some i) /\ registered i s)).
  - apply composite_registers.
  - intros s [H _]. discriminate.
  - intros a s [E R]. injection E as ->. revert s R. cbv beta zeta iota.
    match goal with |- forall s, registered i s -> registered i (snd (?m s)) =>
      change (preserves (registered i) m) end.
    walk_registered.
Qed.

End Composited.

Lemma for_each_run {A} (x : A) (l : list A) (body : A -> M unit) (s : State) :
  for_each (x :: l) body s =
  match body x s with
  | (Ok _, s1) => for_each l body s1
  | (Raised, s1) => (Raised, s1)
  end.
Proof. reflexivity. Qed.

Lemma recto_loop_registers env grid deck default i :
  compose_ok env i = true -> mktemp_ok env i = true -> save_png_ok env i = true ->
  forall l s, In i l ->
    fst (for_each l (recto_card env grid deck default true) s) = Ok tt ->
    registered i (snd (for_each l (recto_card env grid deck default true) s)).
Proof.
  intros Hc Hn Hs. induction l as [|x l IH]; intros s Hin Hok; [contradiction|].
  rewrite for_each_run in *.
  destruct (recto_card env grid deck default true x s) as [[[]|] s1] eqn:E;
    [|discriminate].
  destruct Hin as [-> | Hin].
  - apply (preserves_for_each (registered i) l); [intros y; apply recto_card_keeps_registered|].
    pose proof (recto_card_registers env i Hc Hn Hs grid deck default s I) as R.
    now rewrite E in R.
  - now apply IH.
Qed.

Lemma In_range (n i : Z) : 0 <= i < n -> In i (range n).
Proof.
  intros H. unfold range. apply in_map_iff. exists (Z.to_nat i). split.
  - lia.
  - apply in_seq. lia.
Qed.

Lemma bind_run {A B} (m : M A) (k : A -> M B) (s : State) :
  bind m k s =
  match m s with
  | (Ok a, s1) => k a s1
  | (Raised, s1) => (Raised, s1)
  end.
Proof. reflexivity. Qed.

Lemma drawing_registers env cards default i s :
  open_ok env = true ->
  compose_ok env i = true -> mktemp_ok env i = true -> save_png_ok env i = true ->
  0 <= i < NB_CARTES ->
  fst (drawing env cards default true s) = Ok tt ->
  registered i (snd (drawing env cards default true s)).
Proof.
  intros Ho Hc Hn Hs Hi. unfold drawing. rewrite Ho.
  rewrite bind_run. cbn [try_ guard bind ret].
  rewrite bind_run.
  pose proof (recto_loop_registers env compute_grid (cards10 cards) default i
                Hc Hn Hs (range NB_CARTES) s (In_range _ _ Hi)) as R.
  destruct (for_each (range NB_CARTES)
              (recto_card env compute_grid (cards10 cards) default true) s)
    as [[[]|] s1]; [|discriminate].
  intros _. specialize (R eq_refl). cbn [snd] in R. revert s1 R.
  match goal with |- forall s1, registered i s1 -> registered i (snd (?m s1)) =>
    change (preserves (registered i) m) end.
  apply preserves_bind; [apply registered_emit | intros _].
  apply preserves_bind;
    [apply preserves_for_each; intros j; apply verso_card_keeps_registered | intros _].
  apply registered_emit.
Qed.

(** *** The clean-up loop *)

Lemma not_in_filtered (p : path) (l : list path) :
  ~ In p (filter (fun q => negb (q =? p)) l).
Proof.
  intros H. apply filter_In in H as [_ H]. now rewrite Z.eqb_refl in H.
Qed.

Lemma remove_temp_run env p s :
  fst (remove_temp env p s) = Ok tt
  /\ to_clean (snd (remove_temp env p s)) = to_clean s
  /\ (forall e, In e (log s) -> In e (log (snd (remove_temp env p s))))
  /\ (forall q, In q (files (snd (remove_temp env p s))) -> In q (files s))
  /\ removal_attempted env (snd (remove_temp env p s)) p.
Proof.
  unfold remove_temp, removal_attempted.
  destruct (remove_ok env p) eqn:E; simpl; repeat split.
  - intros e He. apply in_or_app. now left.
  - intros q Hq. now apply filter_In in Hq.
  - left. repeat split.
    + apply in_or_app. right. now left.
    + apply not_in_filtered.
  - intros e He. apply in_or_app. now left.
  - auto.
  - right. split; [reflexivity|]. apply in_or_app. right. now left.
Qed.

Lemma removal_attempted_mono env s s' p :
  (forall e, In e (log s) -> In e (log s')) ->
  (forall q, In q (files s') -> In q (files s)) ->
  removal_attempted env s p -> removal_attempted env s' p.
Proof.
  intros Hl Hf [(Ho & Hr & Hn) | (Ho & Hw)]; [left | right]; repeat split; auto.
Qed.

Lemma clean_loop env (l : list path) (s : State) :
  fst (for_each l (remove_temp env) s) = Ok tt
  /\ to_clean (snd (for_each l (remove_temp env) s)) = to_clean s
  /\ (forall e, In e (log s) -> In e (log (snd (for_each l (remove_temp env) s))))
  /\ (forall q, In q (files (snd (for_each l (remove_temp env) s))) -> In q (files s))
  /\ (forall p, In p l ->
        removal_attempted env (snd (for_each l (remove_temp env) s)) p).
Proof.
  revert s. induction l as [|p l IH]; intros s.
  - simpl. repeat split; auto. intros p [].
  - rewrite for_each_run.
    destruct (remove_temp_run env p s) as (H1 & H2 & H3 & H4 & H5).
    destruct (remove_temp env p s) as [[[]|] s1]; simpl in *; [|discriminate].
    destruct (IH s1) as (I1 & I2 & I3 & I4 & I5).
    repeat split; auto.
    + congruence.
    + intros q [<- | Hq]; [|now apply I5].
      now apply (removal_attempted_mono env s1).
Qed.

(** *** Completion *)

Lemma total_unit (m : M unit) (s : State) : total m -> fst (m s) = Ok tt.
Proof. intros H. destruct (H s) as [[] E]. exact E. Qed.

Ltac walk_total :=
  repeat first
    [ apply total_ret
    | apply total_emit
    | apply total_try
    | apply total_for_each; intros ?
    | apply total_bind; [|intros ?]
    | match goal with
      | |- total (match ?x with _ => _ end) => destruct x
      | |- total (if ?b then _ else _) => destruct b
      | |- total (create_file _) => intros ?; now exists tt
      | |- total (register _) => intros ?; now exists tt
      end ].

Section Accepted.

Variable env : Env.
Hypothesis accepted : forall markup, para_ok env markup = true.

Lemma text_box_total x y w h text style :
  total (draw_centered_text_in_box env x y w h text style).
Proof.
  unfold draw_centered_text_in_box. rewrite accepted. walk_total.
Qed.

Lemma recto_card_total grid deck default have_image i :
  total (recto_card env grid deck default have_image i).
Proof.
  unfold recto_card.
  destruct (front_cell i) as [col row]. destruct (card_xy grid col row) as [x y].
  apply total_bind; [apply total_emit | intros _].
  apply total_bind; [apply total_emit | intros _].
  apply total_bind.
  - destruct have_image; [|apply total_ret].
    unfold composite. walk_total.
  - intros [p|]; [|apply text_box_total].
    cbv zeta. apply total_bind; [walk_total | intros drawn].
    destruct drawn; apply text_box_total.
Qed.

Lemma drawing_total cards default uploaded :
  total (drawing env cards default uploaded).
Proof.
  unfold drawing.
  apply total_bind; [walk_total | intros have_image].
  apply total_bind;
    [apply total_for_each; intros i; apply recto_card_total | intros _].
  apply total_bind; [apply total_emit | intros _].
  apply total_bind; [|intros _; apply total_emit].
  apply total_for_each. intros i. unfold verso_card.
  destruct (back_cell i) as [bc row]. destruct (card_xy compute_grid bc row).
  apply text_box_total.
Qed.

End Accepted.

(** *** build_pdf as drawing followed by the clean-up *)

Lemma build_pdf_split env cards default uploaded s :
  build_pdf env cards default uploaded s
  = bind (drawing env cards default uploaded) (fun _ => clean_up env) s.
Proof.
  unfold build_pdf, drawing. cbv zeta.
  rewrite bind_assoc. apply bind_ext. intros have_image s1.
  rewrite bind_assoc. apply bind_ext. intros _ s2.
  rewrite bind_assoc. apply bind_ext. intros _ s3.
  rewrite bind_assoc. reflexivity.
Qed.

End Temp.

Ltac not_logged :=
  let H := fresh in
  intros H; repeat (destruct H as [H|H]; [discriminate H|]); exact H.


(** ** Further properties of the reader and the layout *)

(** A headered file question;reponse with the row Hello;World and the
    headerless file Hello;World yield the same single card. *)
Theorem headered_and_headerless_agree :
  read_cards_from_rows [[py "question"; py "reponse"]; [py "Hello"; py "World"]]
    = [mk_card (py "Hello") (py "World") None]
  /\ read_cards_from_rows [[py "Hello"; py "World"]]
    = [mk_card (py "Hello") (py "World") None].
Proof. split; vm_compute; reflexivity. Qed.

(** Every slot 0..9 lies in the 2 x 5 grid and is recovered from its front
    cell as row*COLS + col; distinct slots have distinct front cells. *)
Theorem front_cell_in_grid (i : Z) :
  0 <= i < NB_CARTES ->
  0 <= fst (front_cell i) < COLS
  /\ 0 <= snd (front_cell i) < ROWS
  /\ i = snd (front_cell i) * COLS + fst (front_cell i)
  /\ (forall j, 0 <= j < NB_CARTES -> front_cell j = front_cell i -> j = i).
Proof.
  unfold front_cell, NB_CARTES, COLS, ROWS. cbn [fst snd]. intros Hi.
  pose proof (Z.mod_pos_bound i 2 ltac:(lia)).
  pose proof (Z.div_mod i 2 ltac:(lia)).
  assert (0 <= i / 2 < 5) by lia.
  split; [lia | split; [lia | split; [lia|]]].
  intros j Hj E. injection E as Em Ed.
  pose proof (Z.div_mod j 2 ltac:(lia)). lia.
Qed.

Lemma front_cell_in_grid_witness :
  9 = snd (front_cell 9) * COLS + fst (front_cell 9).
Proof.
  refine (proj1 (proj2 (proj2 (front_cell_in_grid 9 _)))).
  unfold NB_CARTES. lia.
Defined.

(** ** The reader beyond the claims *)

Module Reader.

Lemma filter_lower (s : pystr) :
  filter not_space (lower s) = lower (filter not_space s).
Proof.
  unfold lower. induction s as [|c t IH]; [reflexivity|]. cbn [map filter].
  assert (E : not_space (lower_chr c) = not_space c)
    by (unfold not_space; now rewrite is_space_lower_chr).
  rewrite E. destruct (not_space c); cbn [map]; now rewrite IH.
Qed.

Lemma filter_drop_spaces (s : pystr) :
  filter not_space (drop_while is_space s) = filter not_space s.
Proof.
  induction s as [|c t IH]; [reflexivity|]. cbn [drop_while].
  destruct (is_space c) eqn:E; [|reflexivity].
  rewrite IH. cbn [filter]. unfold not_space at 2. now rewrite E.
Qed.

Lemma filter_rstrip (s : pystr) :
  filter not_space (rstrip s) = filter not_space s.
Proof.
  induction s as [|c t IH]; [reflexivity|].
  rewrite rstrip_cons.
  destruct (is_space c && forallb is_space t) eqn:E.
  - apply andb_true_iff in E as [Ec Et].
    apply rstrip_nil_iff in Et. rewrite Et in IH. cbn [filter] in *.
    unfold not_space at 1. rewrite Ec. exact IH.
  - cbn [filter]. now rewrite IH.
Qed.

Lemma filter_strip (s : pystr) :
  filter not_space (strip s) = filter not_space s.
Proof. unfold strip, lstrip. now rewrite filter_drop_spaces, filter_rstrip. Qed.

Lemma normalize_header_eq (h : pystr) :
  normalize_header h = lower (filter not_space h).
Proof.
  unfold normalize_header. fold not_space.
  now rewrite filter_lower, filter_strip.
Qed.

Lemma lower_idem (s : pystr) : lower (lower s) = lower s.
Proof.
  unfold lower. rewrite map_map. apply map_ext. apply lower_chr_idem.
Qed.

Lemma filter_app_pystr (f : ascii -> bool) (a b : pystr) :
  filter f (a ++ b) = filter f a ++ filter f b.
Proof.
  induction a as [|c a IH]; simpl; [reflexivity|].
  destruct (f c); simpl; now rewrite IH.
Qed.

End Reader.

(** The result of normalize_header holds no white-space character;
    normalize_header is idempotent and blind to the case of its argument. *)
Theorem normalize_header_canonical (h : pystr) :
  forallb not_space (normalize_header h) = true
  /\ normalize_header (normalize_header h) = normalize_header h
  /\ normalize_header (lower h) = normalize_header h.
Proof.
  split; [apply normalize_header_no_space|].
  split; [apply normalize_header_idem|].
  rewrite !Reader.normalize_header_eq, <- Reader.filter_lower.
  rewrite Reader.lower_idem. apply Reader.filter_lower.
Qed.

Module Rows.

Lemma blank_cell_normalizes_empty (x : pystr) :
  truthy (strip x) = false -> normalize_header x = [].
Proof.
  intros H. rewrite Reader.normalize_header_eq, <- Reader.filter_strip.
  destruct (strip x); [reflexivity | discriminate].
Qed.

Lemma blank_row_has_no_header (b : list pystr) :
  row_blank b = true -> has_header (map normalize_header b) = false.
Proof.
  unfold row_blank, has_header. induction b as [|x b IH]; [reflexivity|].
  cbn [forallb map existsb]. rewrite andb_true_iff, negb_true_iff.
  intros [Hx Hb]. rewrite (blank_cell_normalizes_empty x Hx), (IH Hb).
  reflexivity.
Qed.

Lemma filter_not_blank_app (r1 r2 : list (list pystr)) (b : list pystr) :
  row_blank b = true ->
  filter (fun r => negb (row_blank r)) (r1 ++ b :: r2)
  = filter (fun r => negb (row_blank r)) (r1 ++ r2).
Proof.
  intros H. rewrite !filter_app. cbn [filter]. now rewrite H.
Qed.

Lemma find_item_stripped (nk : pystr) (d : dict pystr) (v : pystr) :
  find_item nk d = Some v -> strip v = v.
Proof.
  induction d as [|[kk vv] d IH]; simpl; [discriminate|].
  destruct (str_eqb (normalize_header kk) nk); [|exact IH].
  intros [= <-]. apply strip_idem.
Qed.

Lemma get_field_stripped (d : dict pystr) (keys : list pystr) (fb : pystr) :
  strip fb = fb -> strip (get_field d keys fb) = get_field d keys fb.
Proof.
  intros Hfb. induction keys as [|k ks IH]; simpl; [exact Hfb|].
  destruct (find_item (normalize_header k) d) eqn:E; [|exact IH].
  exact (find_item_stripped _ _ _ E).
Qed.

Lemma color_tag_stripped (q : pystr) :
  strip q = q ->
  strip (fst (color_tag q)) = fst (color_tag q)
  /\ match snd (color_tag q) with
     | None => True
     | Some n => is_color_name n = true
     end.
Proof.
  intros Hq. unfold color_tag.
  destruct (re_search_tag q) as [g|]; [|now split].
  cbv zeta. destruct (dict_find (strip (lower g)) COLOR_MAP) eqn:E.
  - cbn [fst snd]. split; [apply strip_idem|].
    unfold is_color_name. now rewrite E.
  - now split.
Qed.

Lemma mk_card_well_formed (q t : pystr) :
  strip q = q -> strip t = t ->
  well_formed_card (mk_card (fst (color_tag q)) t (snd (color_tag q))).
Proof.
  intros Hq Ht. destruct (color_tag_stripped q Hq) as [H1 H2].
  exists (fst (color_tag q)), t, (snd (color_tag q)). auto.
Qed.

Lemma card_of_header_row_well_formed (headers r : list pystr) :
  well_formed_card (card_of_header_row headers r).
Proof.
  unfold card_of_header_row.
  destruct (color_tag (get_field (row_dict headers r) question_keys [])) eqn:E.
  pose proof (mk_card_well_formed
                (get_field (row_dict headers r) question_keys [])
                (get_field (row_dict headers r) texte_keys [])) as H.
  rewrite E in H. apply H; now apply get_field_stripped.
Qed.

Lemma card_of_plain_row_well_formed (r : list pystr) :
  well_formed_card (card_of_plain_row r).
Proof.
  unfold card_of_plain_row.
  set (q := match r with x :: _ => strip x | [] => [] end).
  assert (Hq : strip q = q) by (subst q; destruct r; [reflexivity | apply strip_idem]).
  destruct (color_tag q) eqn:E.
  pose proof (fun t => mk_card_well_formed q t Hq) as H. rewrite E in H.
  apply H.
  destruct r as [|x0 [|x1 [|x2 r]]]; cbn [negb truthy];
    try reflexivity; try apply strip_idem.
  - destruct (strip x1) eqn:S; cbn [truthy negb]; [reflexivity|].
    rewrite <- S. apply strip_idem.
  - destruct (strip x1) eqn:S; cbn [truthy negb]; [apply strip_idem|].
    rewrite <- S. apply strip_idem.
Qed.

End Rows.

(** When every cell of the first row is blank, no header is detected: the
    blank row is dropped and every other non-blank row, a row of column names
    included, is read as a headerless card. *)
Theorem blank_first_row_disables_header (b : list pystr) (rest : list (list pystr)) :
  row_blank b = true ->
  read_cards_from_rows (b :: rest) = map card_of_plain_row (filter not_blank rest).
Proof.
  intros H. unfold read_cards_from_rows.
  rewrite (Rows.blank_row_has_no_header b H). cbn [filter]. now rewrite H.
Qed.

Lemma blank_first_row_disables_header_witness :
  read_cards_from_rows [[py " "; py ""]; [py "question"; py "reponse"]; [py "Hello"; py "World"]]
  = [mk_card (py "question") (py "reponse") None; mk_card (py "Hello") (py "World") None].
Proof.
  rewrite (blank_first_row_disables_header [py " "; py ""]
             [[py "question"; py "reponse"]; [py "Hello"; py "World"]] eq_refl).
  reflexivity.
Defined.

(** Among the rows the CSV reader returned, a blank row anywhere after the
    first changes nothing: the cards are those of the rows without it. *)
Theorem blank_rows_are_skipped (first : list pystr) (r1 : list (list pystr))
    (b : list pystr) (r2 : list (list pystr)) :
  row_blank b = true ->
  read_cards_from_rows (first :: r1 ++ b :: r2)
  = read_cards_from_rows (first :: r1 ++ r2).
Proof.
  intros H. unfold read_cards_from_rows.
  destruct (has_header (map normalize_header first)).
  - now rewrite Rows.filter_not_blank_app.
  - cbn [filter]. now rewrite Rows.filter_not_blank_app.
Qed.

Lemma blank_rows_are_skipped_witness :
  read_cards_from_rows [[py "q"; py "text"]; [py "a"; py "b"]; [py "  "]; [py "c"; py "d"]]
  = read_cards_from_rows [[py "q"; py "text"]; [py "a"; py "b"]; [py "c"; py "d"]].
Proof.
  exact (blank_rows_are_skipped [py "q"; py "text"] [[py "a"; py "b"]] [py "  "]
           [[py "c"; py "d"]] eq_refl).
Defined.

(** Every card the reader returns has the keys question, texte and
    card_color_key; its two texts carry no leading or trailing white space,
    and its colour key is None or a key of COLOR_MAP. *)
Theorem read_cards_well_formed (rows : list (list pystr)) (c : card) :
  In c (read_cards_from_rows rows) -> well_formed_card c.
Proof.
  unfold read_cards_from_rows. destruct rows as [|first rest]; [intros []|].
  destruct (has_header (map normalize_header first));
    intros H; apply in_map_iff in H as (r & <- & _).
  - apply Rows.card_of_header_row_well_formed.
  - apply Rows.card_of_plain_row_well_formed.
Qed.

Lemma read_cards_well_formed_witness :
  well_formed_card (mk_card (py "Hello") (py "World") (Some (py "vert"))).
Proof.
  apply (read_cards_well_formed [[py " Hello ( VERT )"; py ""; py " World "]]).
  left. vm_compute. reflexivity.
Defined.

Module Columns.

Lemma get_field_absent (first r keys : list pystr) (fallback : pystr) :
  (forall k, In k keys -> ~ In (normalize_header k) (map normalize_header first)) ->
  get_field (row_dict (map normalize_header first) r) keys fallback = fallback.
Proof.
  intros H. induction keys as [|k ks IH]; [reflexivity|]. cbn [get_field].
  rewrite (find_item_normalized _ _ (row_dict_keys_normalized first r)).
  rewrite dict_find_absent.
  - cbn [option_map]. apply IH. intros k' Hin. apply H. now right.
  - intros Hin. apply row_dict_from_keys in Hin as [[] | Hin].
    apply (H k); [now left | exact Hin].
Qed.

Lemma color_tag_empty : color_tag [] = ([], None).
Proof. reflexivity. Qed.

End Columns.

(** A headered file without a question column (no header normalising to
    question or q) gives every card the empty question and no colour key;
    one without a back-text column gives every card the empty back text. *)
Theorem missing_column_reads_empty (first r : list pystr) :
  ((forall k, In k question_keys ->
      ~ In (normalize_header k) (map normalize_header first)) ->
   card_get (card_of_header_row (map normalize_header first) r) (py "question")
     = Some []
   /\ card_get (card_of_header_row (map normalize_header first) r)
        (py "card_color_key") = None)
  /\ ((forall k, In k texte_keys ->
         ~ In (normalize_header k) (map normalize_header first)) ->
      card_get (card_of_header_row (map normalize_header first) r) (py "texte")
        = Some []).
Proof.
  unfold card_of_header_row. split.
  - intros H. rewrite (Columns.get_field_absent first r question_keys [] H).
    rewrite Columns.color_tag_empty. split; reflexivity.
  - intros H. rewrite (Columns.get_field_absent first r texte_keys [] H).
    destruct (color_tag _). reflexivity.
Qed.

Lemma missing_column_reads_empty_witness :
  card_get (card_of_header_row (map normalize_header [py "Verso"; py "notes"])
                               [py "back"; py "n"]) (py "question") = Some []
  /\ card_get (card_of_header_row (map normalize_header [py "Q"; py "notes"])
                                  [py "front"; py "n"]) (py "texte") = Some [].
Proof.
  split.
  - refine (proj1 (proj1 (missing_column_reads_empty [py "Verso"; py "notes"]
                            [py "back"; py "n"]) _)).
    intros k Hk. simpl in Hk.
    repeat (destruct Hk as [<- | Hk]; [vm_compute; intuition discriminate|]).
    destruct Hk.
  - refine (proj2 (missing_column_reads_empty [py "Q"; py "notes"]
                     [py "front"; py "n"]) _).
    intros k Hk. simpl in Hk.
    repeat (destruct Hk as [<- | Hk]; [vm_compute; intuition discriminate|]).
    destruct Hk.
Defined.

Ltac eval_closed_tests :=
  repeat match goal with
  | |- context [str_eqb ?a ?b] =>
      let v := eval vm_compute in (str_eqb a b) in
      change (str_eqb a b) with v
  end.

(** With two header cells, the first naming the question (question, q) and
    the second a back text (texte, text, reponse, réponse, answer, verso,
    reponseverso), a row is read exactly as the headerless reader reads its
    first two cells. *)
Theorem headered_two_columns_like_headerless (h1 h2 : pystr) (r : list pystr) :
  In (normalize_header h1) (map normalize_header question_keys) ->
  In (normalize_header h2) (map normalize_header texte_keys) ->
  card_of_header_row (map normalize_header [h1; h2]) r
  = card_of_plain_row (firstn 2 r).
Proof.
  intros H1 H2. unfold card_of_header_row, card_of_plain_row, row_dict.
  cbn [map row_dict_from].
  remember (normalize_header h1) as n1 eqn:E1.
  remember (normalize_header h2) as n2 eqn:E2.
  clear E1 E2.
  assert (Q : forall r0 r1,
            get_field (dict_set n2 r1 (dict_set n1 r0 [])) question_keys [] = strip r0
            /\ get_field (dict_set n2 r1 (dict_set n1 r0 [])) texte_keys [] = strip r1).
  { intros r0 r1. vm_compute in H1, H2.
    repeat destruct H1 as [H1|H1]; try contradiction; subst n1;
    repeat destruct H2 as [H2|H2]; try contradiction; subst n2;
      split; unfold get_field, find_item, question_keys, texte_keys;
      cbn [dict_set]; eval_closed_tests; cbv iota; cbn [find_item];
      repeat (match goal with
              | |- context [normalize_header ?a] =>
                  let v := eval vm_compute in (normalize_header a) in
                  change (normalize_header a) with v
              end); eval_closed_tests; reflexivity. }
  destruct r as [|r0 [|r1 r']]; cbn [firstn tl]; cbv beta iota.
  - destruct (Q [] []) as [Ha Hb]. unfold pystr in *. rewrite Ha, Hb. reflexivity.
  - destruct (Q (strip r0) []) as [Ha Hb]. unfold pystr in *. rewrite Ha, Hb, strip_idem.
    reflexivity.
  - destruct (Q (strip r0) (strip r1)) as [Ha Hb]. unfold pystr in *.
    rewrite Ha, Hb, !strip_idem.
    cbn [negb truthy]. destruct (color_tag (strip r0)).
    destruct (strip r1); reflexivity.
Qed.

Lemma headered_two_columns_like_headerless_witness :
  card_of_header_row (map normalize_header [py " Question"; py "REPONSE "])
                     [py "Hello (rose)"; py "World"; py "more"]
  = card_of_plain_row [py "Hello (rose)"; py "World"].
Proof.
  refine (headered_two_columns_like_headerless (py " Question") (py "REPONSE ")
            [py "Hello (rose)"; py "World"; py "more"] _ _).
  - left. reflexivity.
  - do 2 right. left. reflexivity.
Defined.

(** ** The grid beyond the claims *)

Module Cells.

Lemma slot_cases (i : Z) :
  0 <= i < NB_CARTES -> In i [0; 1; 2; 3; 4; 5; 6; 7; 8; 9].
Proof. unfold NB_CARTES. intros H. simpl. lia. Qed.

End Cells.

(** On the program's grid every cell keeps the margin on the left, on the
    right and at the top and starts at most 2^-45 point below the bottom
    margin (the bottom row does start below it, by rounding); the cells of two
    distinct slots do not overlap: they are apart by GAP up to 2^-44 point. *)
Theorem cells_apart_inside_margins (i j : Z) :
  0 <= i < NB_CARTES -> 0 <= j < NB_CARTES ->
  inside_margins (front_box i) = true
  /\ (i <> j -> apart (front_box i) (front_box j) = true)
  /\ PrimFloat.ltb (snd (front_box 8)) MARGIN = true.
Proof.
  intros Hi Hj. apply Cells.slot_cases in Hi, Hj. simpl in Hi, Hj.
  split; [|split].
  - clear Hj.
    repeat (destruct Hi as [<- | Hi]; [vm_compute; reflexivity|]). destruct Hi.
  - intros Hne.
    repeat (destruct Hi as [<- | Hi];
            [repeat (destruct Hj as [<- | Hj];
                     [first [congruence | vm_compute; reflexivity]|]);
             try destruct Hj|]);
    try destruct Hi.
  - vm_compute. reflexivity.
Qed.

Lemma cells_apart_inside_margins_witness :
  inside_margins (front_box 3) = true /\ apart (front_box 3) (front_box 4) = true.
Proof.
  assert (H3 : 0 <= 3 < NB_CARTES) by (unfold NB_CARTES; lia).
  assert (H4 : 0 <= 4 < NB_CARTES) by (unfold NB_CARTES; lia).
  destruct (cells_apart_inside_margins 3 4 H3 H4) as (Hin & Hap & _).
  split; [exact Hin | apply Hap; lia].
Defined.

(** The back cell of a slot is the mirror image of its front cell about the
    vertical centre line of the page: x_back + cell_w + x_front = page_w and
    y_back = y_front, exactly in the program's binary64 arithmetic, and
    exactly over the rationals for any page size, margin and gap. *)
Theorem back_cell_registers_with_front (i : Z) :
  0 <= i < NB_CARTES ->
  (fst (back_box i) + card_w compute_grid + fst (front_box i))%float
    = page_w compute_grid
  /\ snd (back_box i) = snd (front_box i)
  /\ (forall A4 margin gap,
        let g := Exact.compute_grid A4 margin gap in
        let f := ExactCell.card_xy gap g (fst (front_cell i)) (snd (front_cell i)) in
        let b := ExactCell.card_xy gap g (fst (back_cell i)) (snd (back_cell i)) in
        (fst b + Exact.card_w g + fst f == Exact.page_w g)%Q
        /\ (snd b == snd f)%Q).
Proof.
  intros Hi. pose proof (Cells.slot_cases i Hi) as Hc. simpl in Hc.
  split; [|split].
  - repeat (destruct Hc as [<- | Hc]; [vm_compute; reflexivity|]). destruct Hc.
  - repeat (destruct Hc as [<- | Hc]; [vm_compute; reflexivity|]). destruct Hc.
  - intros [pw ph] margin gap.
    unfold front_cell, back_cell, COLS, ExactCell.card_xy, Exact.compute_grid,
      COLS, ROWS.
    cbn [fst snd Exact.x0 Exact.y0 Exact.card_w Exact.card_h Exact.page_w
         Exact.page_h].
    split; [|reflexivity].
    assert (Hm : i mod 2 = 0 \/ i mod 2 = 1)
      by (pose proof (Z.mod_pos_bound i 2 ltac:(lia)); lia).
    destruct Hm as [-> | ->]; cbn; field.
Qed.

Lemma back_cell_registers_with_front_witness :
  (fst (back_box 5) + card_w compute_grid + fst (front_box 5))%float
    = page_w compute_grid.
Proof.
  refine (proj1 (back_cell_registers_with_front 5 _)). unfold NB_CARTES. lia.
Defined.

(** ** Colours beyond the claims *)

(** pick_color_from_filename always returns one of the five colour names
    together with that name's entry of COLOR_MAP (the subscript never
    misses), and its result does not depend on the case of the filename. *)
Theorem pick_color_key_in_map (filename : pystr) :
  is_color_name (fst (pick_color_from_filename filename)) = true
  /\ dict_find (fst (pick_color_from_filename filename)) COLOR_MAP
     = Some (snd (pick_color_from_filename filename))
  /\ pick_color_from_filename (lower filename) = pick_color_from_filename filename.
Proof.
  assert (K : forall low k, first_key_in filename_keys low = Some k ->
                            In k filename_keys).
  { intros low k H. apply first_key_in_some in H as (b & a & E & _).
    rewrite E. apply in_or_app. right. now left. }
  unfold pick_color_from_filename.
  split; [|split].
  - destruct (first_key_in filename_keys (lower filename)) eqn:E; [|reflexivity].
    cbn [fst]. apply filename_keys_in_map. eauto.
  - destruct (first_key_in filename_keys (lower filename)) eqn:E; [|reflexivity].
    cbn [fst snd]. apply K in E. simpl in E.
    repeat (destruct E as [<- | E]; [reflexivity|]). destruct E.
  - now rewrite Reader.lower_idem.
Qed.

(** ** build_pdf beyond the claims *)

Module Run.
Import Pdf Logic.

Lemma logged_nil (s : State) : logged [] s = s.
Proof. destruct s. unfold logged. cbn. now rewrite app_nil_r. Qed.

Lemma logged_logged (a b : list event) (s : State) :
  logged b (logged a s) = logged (a ++ b) s.
Proof. unfold logged. cbn. now rewrite app_assoc. Qed.

Lemma text_box_run env x y w h text style s :
  draw_centered_text_in_box env x y w h text style s
  = if para_ok env (paragraph_markup text)
    then (Ok tt, logged [paragraph_event env x y w h text style] s)
    else (Raised, s).
Proof.
  unfold draw_centered_text_in_box, paragraph_markup, bind, guard.
  destruct (para_ok env _); reflexivity.
Qed.

Lemma for_each_logged {A} (l : list A) (body : A -> M unit)
    (evs : A -> list event) :
  (forall x s, body x s = (Ok tt, logged (evs x) s)) ->
  forall s, for_each l body s = (Ok tt, logged (flat_map evs l) s).
Proof.
  intros H. induction l as [|x l IH]; intros s.
  - cbn. now rewrite logged_nil.
  - rewrite Temp.for_each_run, H, IH. cbn [flat_map].
    now rewrite logged_logged.
Qed.

Section Accepted.

Variable env : Env.
Hypothesis accepted : forall markup, para_ok env markup = true.

Lemma recto_card_plain_run deck default i s :
  recto_card env compute_grid deck default false i s
  = (Ok tt, logged (recto_plain env deck default i) s).
Proof.
  unfold recto_card, recto_plain, front_box, card_color.
  destruct (front_cell i) as [col row].
  destruct (card_xy compute_grid col row) as [x y].
  unfold bind, emit, ret. cbn [fst snd]. rewrite text_box_run, accepted.
  unfold logged. cbn. now rewrite <- !app_assoc.
Qed.

Lemma verso_card_plain_run deck i s :
  verso_card env compute_grid deck i s
  = (Ok tt, logged [verso_plain env deck i] s).
Proof.
  unfold verso_card, verso_plain, back_box.
  destruct (back_cell i) as [col row].
  destruct (card_xy compute_grid col row) as [x y].
  cbn [fst snd]. now rewrite text_box_run, accepted.
Qed.

End Accepted.

(** The log never holds an event of the class [P] when the program only
    logs events outside it. *)
Section Absent.

Variable P : event -> bool.

Lemma none_emit (e : event) : P e = false -> preserves (none_logged P) (emit e).
Proof.
  intros He s Hs. unfold none_logged in *. cbn.
  apply Forall_app. split; [exact Hs | now constructor].
Qed.

Lemma none_create_file (p : path) :
  P (TempCreated p) = false -> preserves (none_logged P) (create_file p).
Proof.
  intros He s Hs. unfold none_logged in *. cbn.
  apply Forall_app. split; [exact Hs | now constructor].
Qed.

Lemma none_delete_file (p : path) :
  P (Removed p) = false -> preserves (none_logged P) (delete_file p).
Proof.
  intros He s Hs. unfold none_logged in *. cbn.
  apply Forall_app. split; [exact Hs | now constructor].
Qed.

Lemma none_register (p : path) : preserves (none_logged P) (register p).
Proof. intros s Hs. exact Hs. Qed.

End Absent.

Ltac walk_none :=
  repeat first
    [ Temp.structure
    | apply none_register
    | apply none_create_file; reflexivity
    | apply none_delete_file; reflexivity
    | apply none_emit; reflexivity ].

Lemma build_pdf_no_handler_event env cards default uploaded :
  preserves (none_logged is_handler_event) (build_pdf env cards default uploaded).
Proof.
  unfold build_pdf. walk_none.
  intros s Hs. unfold clean_up.
  apply (preserves_for_each (none_logged is_handler_event) (to_clean s)
           (remove_temp env)); [|exact Hs].
  intros p. unfold remove_temp. walk_none.
Qed.

Lemma drawing_ok_saved env cards default uploaded s :
  fst (drawing env cards default uploaded s) = Ok tt ->
  In Save (log (snd (drawing env cards default uploaded s))).
Proof.
  unfold drawing. rewrite Temp.bind_run.
  match goal with |- context [match ?m s with _ => _ end] =>
    destruct (m s) as [[h|] s1] end; [|discriminate].
  rewrite Temp.bind_run.
  match goal with |- context [match ?m s1 with _ => _ end] =>
    destruct (m s1) as [[[]|] s2] end; [|discriminate].
  rewrite Temp.bind_run. cbn [emit].
  rewrite Temp.bind_run.
  match goal with |- context [match ?m ?s3 with _ => _ end] =>
    destruct (m s3) as [[[]|] s4] end; [|discriminate].
  intros _. cbn. apply in_or_app. right. now left.
Qed.

Lemma build_pdf_ok_saved env cards default uploaded s :
  fst (build_pdf env cards default uploaded s) = Ok tt ->
  In Save (log (snd (build_pdf env cards default uploaded s))).
Proof.
  rewrite Temp.build_pdf_split, Temp.bind_run.
  pose proof (drawing_ok_saved env cards default uploaded s) as D.
  destruct (drawing env cards default uploaded s) as [[[]|] s1];
    [|discriminate].
  intros _. unfold clean_up.
  destruct (Temp.clean_loop env (to_clean s1) s1) as (_ & _ & C3 & _).
  apply C3. now apply D.
Qed.

Lemma build_pdf_completes env cards default uploaded s :
  (forall markup, para_ok env markup = true) ->
  fst (build_pdf env cards default uploaded s) = Ok tt.
Proof.
  intros Hacc. rewrite Temp.build_pdf_split, Temp.bind_run.
  pose proof (Temp.total_unit _ s
                (Temp.drawing_total env Hacc cards default uploaded)) as T.
  destruct (drawing env cards default uploaded s) as [[[]|] s1];
    [|discriminate].
  unfold clean_up. exact (proj1 (Temp.clean_loop env (to_clean s1) s1)).
Qed.

End Run.

(** Without an image, and when Paragraph accepts every markup, build_pdf
    ends normally and logs exactly: for each slot 0..9 in order the fill
    colour, the filled unstroked cell and the question; one page break; the
    ten back texts in slot order at their mirrored cells; the save.  No
    temporary file is made and no message is shown. *)
Theorem text_only_document (env : Pdf.Env) (cards : list card)
    (default_back_color : Color) :
  (forall markup, Pdf.para_ok env markup = true) ->
  Pdf.build_pdf env cards default_back_color false Pdf.init
  = (Pdf.Ok tt,
     Pdf.mkState
       (flat_map (recto_plain env (Pdf.cards10 cards) default_back_color)
                 (Pdf.range NB_CARTES)
        ++ Pdf.ShowPage
        :: map (verso_plain env (Pdf.cards10 cards)) (Pdf.range NB_CARTES)
        ++ [Pdf.Save])
       [] []).
Proof.
  intros Hacc. unfold Pdf.build_pdf. cbv zeta.
  rewrite Temp.bind_run. cbn [Pdf.ret].
  rewrite Temp.bind_run.
  rewrite (Run.for_each_logged _ _ _
             (Run.recto_card_plain_run env Hacc (Pdf.cards10 cards)
                default_back_color)).
  rewrite Temp.bind_run. cbn [Pdf.emit].
  rewrite Temp.bind_run.
  rewrite (Run.for_each_logged _ _ (fun i => [verso_plain env (Pdf.cards10 cards) i])
             (Run.verso_card_plain_run env Hacc (Pdf.cards10 cards))).
  rewrite Temp.bind_run. cbn [Pdf.emit]. unfold Pdf.clean_up, logged. cbn.
  f_equal. f_equal. rewrite <- !app_assoc. cbn [app]. f_equal. f_equal.
  f_equal. generalize (Pdf.range NB_CARTES). intros l.
  induction l as [|x l IH]; cbn; [reflexivity | now rewrite IH].
Qed.

Lemma text_only_document_witness :
  Pdf.build_pdf env_fine [sample_card] bleu false Pdf.init
  = (Pdf.Ok tt,
     Pdf.mkState
       (flat_map (recto_plain env_fine (Pdf.cards10 [sample_card]) bleu)
                 (Pdf.range NB_CARTES)
        ++ Pdf.ShowPage
        :: map (verso_plain env_fine (Pdf.cards10 [sample_card])) (Pdf.range NB_CARTES)
        ++ [Pdf.Save])
       [] []).
Proof.
  exact (text_only_document env_fine [sample_card] bleu (fun _ => eq_refl)).
Defined.

(** An image that cannot be opened costs one error message; build_pdf then
    runs exactly as without an image. *)
Theorem unopened_image_is_text_only (env : Pdf.Env) (cards : list card)
    (default_back_color : Color) (s : Pdf.State) :
  Pdf.open_ok env = false ->
  Pdf.build_pdf env cards default_back_color true s
  = Pdf.build_pdf env cards default_back_color false
      (logged [Pdf.StError Pdf.ErrPreprocess] s).
Proof.
  intros H. unfold Pdf.build_pdf. cbv zeta.
  rewrite !Temp.bind_run. unfold Pdf.try_. rewrite Temp.bind_run.
  unfold Pdf.guard. rewrite H. reflexivity.
Qed.

Lemma unopened_image_is_text_only_witness :
  Pdf.build_pdf env_unreadable_image [sample_card] bleu true Pdf.init
  = Pdf.build_pdf env_unreadable_image [sample_card] bleu false
      (logged [Pdf.StError Pdf.ErrPreprocess] Pdf.init).
Proof.
  exact (unopened_image_is_text_only env_unreadable_image [sample_card] bleu
           Pdf.init eq_refl).
Defined.

Module Leftover.
Import Pdf Logic.

Lemma accounted_emit env e : preserves (files_accounted env) (emit e).
Proof. intros s Hs. exact Hs. Qed.

Lemma accounted_composite env i :
  preserves (files_accounted env) (composite env i).
Proof.
  intros s Hs. unfold composite, try_, bind, guard, ret, raise.
  destruct (compose_ok env i); [|exact Hs].
  destruct (mktemp_ok env i); [|exact Hs].
  destruct (save_png_ok env i) eqn:E; cbn; intros p Hp; cbn in *;
    apply in_app_or in Hp as [Hp | [<- | []]].
  - destruct (Hs p Hp) as [H | H]; [left; apply in_or_app; now left | now right].
  - left. apply in_or_app. right. now left.
  - exact (Hs p Hp).
  - now right.
Qed.

Ltac walk_accounted :=
  repeat first
    [ Temp.structure
    | apply accounted_composite
    | apply accounted_emit ].

Lemma accounted_drawing env cards default uploaded :
  preserves (files_accounted env) (drawing env cards default uploaded).
Proof.
  unfold drawing. apply preserves_bind; [walk_accounted | intros have_image].
  apply preserves_bind; [|intros _; walk_accounted].
  apply preserves_for_each. intros i. unfold recto_card.
  destruct (front_cell i) as [col row].
  destruct (card_xy compute_grid col row) as [x y].
  apply preserves_bind; [apply accounted_emit | intros _].
  apply preserves_bind; [apply accounted_emit | intros _].
  apply preserves_bind.
  - destruct have_image; [apply accounted_composite | apply preserves_ret].
  - intros [p|]; cbv zeta; walk_accounted.
Qed.

End Leftover.

(** After a run of build_pdf that ends normally, with every removal
    succeeding, the only temporary files still on disk are those whose PNG
    could not be written; when every PNG is written none is left. *)
Theorem leftover_files_failed_save (env : Pdf.Env) (cards : list card)
    (default_back_color : Color) (uploaded_image_file : bool) :
  let run := Pdf.build_pdf env cards default_back_color uploaded_image_file Pdf.init in
  fst run = Pdf.Ok tt ->
  (forall p, Pdf.remove_ok env p = true) ->
  (forall p, In p (Pdf.files (snd run)) -> Pdf.save_png_ok env p = false)
  /\ ((forall i, Pdf.save_png_ok env i = true) -> Pdf.files (snd run) = []).
Proof.
  intros run. subst run. rewrite Temp.build_pdf_split, Temp.bind_run.
  pose proof (Leftover.accounted_drawing env cards default_back_color
                uploaded_image_file Pdf.init) as Hacc.
  destruct (drawing env cards default_back_color uploaded_image_file Pdf.init)
    as [[[]|] s1]; [|discriminate].
  cbn [fst snd] in Hacc. intros _ Hrm. unfold Pdf.clean_up.
  destruct (Temp.clean_loop env (Pdf.to_clean s1) s1) as (_ & _ & _ & C4 & C5).
  assert (L : forall p,
            In p (Pdf.files (snd (Pdf.for_each (Pdf.to_clean s1)
                                    (Pdf.remove_temp env) s1))) ->
            Pdf.save_png_ok env p = false).
  { intros p Hp. destruct (Hacc (fun q (H : In q []) => match H with end) p (C4 p Hp))
      as [Hc | Hs]; [|exact Hs].
    destruct (C5 p Hc) as [(_ & _ & Hn) | (Hf & _)].
    - contradiction.
    - rewrite Hrm in Hf. discriminate. }
  split; [exact L|].
  intros Hall.
  destruct (Pdf.files (snd (Pdf.for_each (Pdf.to_clean s1) (Pdf.remove_temp env) s1)))
    as [|p l]; [reflexivity|].
  specialize (L p (or_introl eq_refl)). rewrite Hall in L. discriminate.
Qed.

Lemma leftover_files_failed_save_witness :
  Pdf.files (snd (Pdf.build_pdf env_fine [sample_card] bleu true Pdf.init)) = [].
Proof.
  refine (proj2 (leftover_files_failed_save env_fine [sample_card] bleu true _ _) _).
  - vm_compute. reflexivity.
  - intros p. reflexivity.
  - intros i. reflexivity.
Defined.

(** The handler offers the download only after build_pdf has ended normally
    and the document has been saved; with at least one card and every markup
    accepted it always does. *)
Theorem download_only_after_save (env : Pdf.Env) (cards : list card)
    (default_back_color : Color) (uploaded_image_file : bool) :
  let run := Pdf.on_generate env cards default_back_color uploaded_image_file
               Pdf.init in
  (In Pdf.StDownloadButton (Pdf.log (snd run)) ->
     cards <> [] /\ fst run = Pdf.Ok tt /\ In Pdf.Save (Pdf.log (snd run)))
  /\ (cards <> [] -> (forall markup, Pdf.para_ok env markup = true) ->
      fst run = Pdf.Ok tt /\ In Pdf.StDownloadButton (Pdf.log (snd run))).
Proof.
  intros run. subst run. unfold Pdf.on_generate.
  destruct cards as [|c cs].
  - split.
    + cbn. intros [H | []]. discriminate.
    + intros H. congruence.
  - rewrite Temp.bind_run.
    pose proof (Run.build_pdf_no_handler_event env (c :: cs) default_back_color
                  uploaded_image_file Pdf.init (Forall_nil _)) as Hno.
    pose proof (Run.build_pdf_ok_saved env (c :: cs) default_back_color
                  uploaded_image_file Pdf.init) as Hsv.
    pose proof (Run.build_pdf_completes env (c :: cs) default_back_color
                  uploaded_image_file Pdf.init) as Hok.
    destruct (Pdf.build_pdf env (c :: cs) default_back_color uploaded_image_file
                Pdf.init) as [[[]|] s1]; cbn [fst snd] in *.
    + split.
      * intros _. split; [discriminate|]. split; [reflexivity|].
        cbn. apply in_or_app. left. apply in_or_app. left. now apply Hsv.
      * intros _ _. split; [reflexivity|].
        cbn. apply in_or_app. right. now left.
    + split.
      * intros H. exfalso. unfold none_logged in Hno.
        rewrite Forall_forall in Hno. specialize (Hno _ H). discriminate.
      * intros _ Hacc. specialize (Hok Hacc). discriminate.
Qed.

Lemma download_only_after_save_witness :
  In Pdf.StDownloadButton
     (Pdf.log (snd (Pdf.on_generate env_remove_fails [sample_card] bleu true Pdf.init))).
Proof.
  refine (proj2 (proj2 (download_only_after_save env_remove_fails [sample_card]
                          bleu true) _ _)).
  - discriminate.
  - intros markup. reflexivity.
Defined.

(** A card whose image cannot be composited, saved or drawn is rendered as
    without an image: what reaches the canvas is the fill, the cell and the
    question centred in the whole cell, and the card ends the same way
    (normally, or by the exception of a refused markup). *)
Theorem card_without_image_fallback (env : Pdf.Env) (grid : Grid)
    (deck : list card) (default_back_color : Color) (i : Z) :
  Pdf.compose_ok env i && Pdf.mktemp_ok env i && Pdf.save_png_ok env i
    && Pdf.draw_image_ok env i = false ->
  fst (Pdf.recto_card env grid deck default_back_color true i Pdf.init)
  = fst (Pdf.recto_card env grid deck default_back_color false i Pdf.init)
  /\ filter is_canvas
       (Pdf.log (snd (Pdf.recto_card env grid deck default_back_color true i Pdf.init)))
     = Pdf.log (snd (Pdf.recto_card env grid deck default_back_color false i Pdf.init)).
Proof.
  intros H. unfold Pdf.recto_card.
  destruct (front_cell i) as [col row]. destruct (card_xy grid col row) as [x y].
  unfold Pdf.composite, Pdf.try_, Pdf.bind, Pdf.guard, Pdf.emit, Pdf.ret,
    Pdf.raise, Pdf.create_file, Pdf.register.
  cbn [fst snd Pdf.log Pdf.files Pdf.to_clean Pdf.init app].
  destruct (Pdf.compose_ok env i); cbn [andb] in H;
    [destruct (Pdf.mktemp_ok env i); cbn [andb] in H;
     [destruct (Pdf.save_png_ok env i); cbn [andb] in H;
      [rewrite H|]|]|];
    cbn [fst snd Pdf.log Pdf.files Pdf.to_clean app];
    rewrite !Run.text_box_run;
    destruct (Pdf.para_ok env _); split; reflexivity.
Qed.

Lemma card_without_image_fallback_witness :
  filter is_canvas
    (Pdf.log (snd (Pdf.recto_card env_remove_fails compute_grid
                     (Pdf.cards10 [sample_card; markup_card]) bleu true 1 Pdf.init)))
  = Pdf.log (snd (Pdf.recto_card env_remove_fails compute_grid
                    (Pdf.cards10 [sample_card; markup_card]) bleu false 1 Pdf.init)).
Proof.
  refine (proj2 (card_without_image_fallback env_remove_fails compute_grid
                   (Pdf.cards10 [sample_card; markup_card]) bleu 1 _)).
  reflexivity.
Defined.

Module Markup.
Import Pdf.

Lemma In_rstrip_inv (x : ascii) (s : pystr) : In x (rstrip s) -> In x s.
Proof.
  induction s as [|c t IH]; [intros []|]. rewrite rstrip_cons.
  destruct (is_space c && forallb is_space t); [intros []|].
  intros [<- | H]; [now left | right; auto].
Qed.

Lemma In_drop_while_inv (f : ascii -> bool) (x : ascii) (s : pystr) :
  In x (drop_while f s) -> In x s.
Proof.
  induction s as [|c t IH]; [intros []|]. cbn [drop_while].
  destruct (f c); [right; auto | auto].
Qed.

Lemma nonblank_has_char (t : pystr) :
  truthy (strip t) = true -> exists c, In c t /\ is_space c = false.
Proof.
  unfold strip, lstrip. destruct (drop_while is_space (rstrip t)) as [|c r] eqn:E;
    [discriminate|].
  intros _. exists c. split.
  - apply In_rstrip_inv, (In_drop_while_inv is_space). rewrite E. now left.
  - exact (drop_while_head _ _ _ _ E).
Qed.

Lemma break_lines_no_newline (t : pystr) : ~ In newline (break_lines t).
Proof.
  unfold break_lines. intros H. apply in_flat_map in H as (c & _ & H).
  destruct (chr_eqb c (ascii_of_N 10)) eqn:E.
  - cbn in H. intuition discriminate.
  - destruct H as [-> | []]. vm_compute in E. discriminate.
Qed.

Lemma break_lines_keeps (c : ascii) (t : pystr) :
  In c t -> is_space c = false -> In c (break_lines t).
Proof.
  intros Hin Hc. unfold break_lines. apply in_flat_map. exists c.
  split; [exact Hin|].
  destruct (chr_eqb c (ascii_of_N 10)) eqn:E; [|now left].
  apply chr_eqb_eq in E. subst c. discriminate.
Qed.

End Markup.

(** The markup handed to Paragraph never holds a newline (each becomes
    <br/>) and is never empty or blank (a blank text becomes &nbsp;); the text
    box logs one paragraph, at x + 6, when Paragraph accepts the markup, and
    raises without logging anything when it refuses it. *)
Theorem paragraph_markup_never_blank (text : pystr) :
  ~ In newline (paragraph_markup text)
  /\ truthy (strip (paragraph_markup text)) = true
  /\ (forall env x y w h style s,
        Pdf.draw_centered_text_in_box env x y w h text style s
        = if Pdf.para_ok env (paragraph_markup text)
          then (Pdf.Ok tt, logged [paragraph_event env x y w h text style] s)
          else (Pdf.Raised, s))
  /\ (forall env x y w h style,
        exists py', paragraph_event env x y w h text style
                    = Pdf.DrawParagraph (paragraph_markup text) style (x + 6)%float py').
Proof.
  split; [|split; [|split]].
  - unfold paragraph_markup. destruct (truthy (strip text)).
    + apply Markup.break_lines_no_newline.
    + cbn. intuition discriminate.
  - unfold paragraph_markup. destruct (truthy (strip text)) eqn:E; [|reflexivity].
    destruct (Markup.nonblank_has_char text E) as (c & Hin & Hc).
    pose proof (In_strip c _ (Markup.break_lines_keeps c text Hin Hc) Hc) as H.
    now destruct (strip (Pdf.break_lines text)).
  - intros. apply Run.text_box_run.
  - intros. eexists. reflexivity.
Qed.

Module Image.

Lemma layout_on_grid (i : Z) :
  0 <= i < NB_CARTES ->
  image_layout_ok (fst (front_box i)) (snd (front_box i)) = true
  /\ PrimFloat.ltb
       (snd (text_box_over_image (fst (front_box i)) (snd (front_box i))) - 2 * 6)%float
       0 = true.
Proof.
  intros Hi. apply Cells.slot_cases in Hi. simpl in Hi.
  repeat (destruct Hi as [<- | Hi]; [split; vm_compute; reflexivity|]).
  destruct Hi.
Qed.

End Image.

(** A card whose image is composited, saved and drawn logs the fill, the
    cell, the file, the image in a square of half the cell height centred
    across the cell, and the question in the box above the image; the file is
    on disk and on the clean-up list.  On the program's grid image and box
    stay inside the cell without overlapping, and the box is lower than the
    12 points of padding, so that its inner height is negative. *)
Theorem image_card_layout (env : Pdf.Env) (deck : list card)
    (default_back_color : Color) (i : Z) :
  0 <= i < NB_CARTES ->
  Pdf.compose_ok env i = true -> Pdf.mktemp_ok env i = true ->
  Pdf.save_png_ok env i = true -> Pdf.draw_image_ok env i = true ->
  Pdf.para_ok env
    (paragraph_markup (card_text (Pdf.card_at deck i) (py "question"))) = true ->
  let x := fst (front_box i) in
  let y := snd (front_box i) in
  let color := card_color deck default_back_color i in
  let '(ix, iy, iw, ih) := image_box x y in
  let '(tx, ty, tw, th) := text_box_over_image x y in
  Pdf.recto_card env compute_grid deck default_back_color true i Pdf.init
  = (Pdf.Ok tt,
     Pdf.mkState
       [ Pdf.SetFillColor color;
         Pdf.Rect x y (card_w compute_grid) (card_h compute_grid) false true;
         Pdf.TempCreated i; Pdf.PngSaved i;
         Pdf.DrawImage i ix iy iw ih;
         paragraph_event env tx ty tw th
           (card_text (Pdf.card_at deck i) (py "question")) (Pdf.style_recto color) ]
       [i] [i])
  /\ image_layout_ok x y = true
  /\ PrimFloat.ltb (th - 2 * 6)%float 0 = true.
Proof.
  intros Hi Hc Hn Hs Hd Hp x y color.
  unfold image_box, text_box_over_image. cbv zeta.
  split; [|exact (Image.layout_on_grid i Hi)].
  subst x y color. unfold Pdf.recto_card, front_box, card_color.
  destruct (front_cell i) as [col row].
  destruct (card_xy compute_grid col row) as [x y]. cbn [fst snd].
  unfold Pdf.composite, Pdf.try_, Pdf.bind, Pdf.guard, Pdf.emit, Pdf.ret,
    Pdf.raise, Pdf.create_file, Pdf.register.
  cbn [fst snd Pdf.log Pdf.files Pdf.to_clean Pdf.init app].
  rewrite Hc, Hn, Hs. cbn [fst snd Pdf.log Pdf.files Pdf.to_clean app].
  rewrite Hd. cbn [fst snd Pdf.log Pdf.files Pdf.to_clean app].
  rewrite Run.text_box_run, Hp. reflexivity.
Qed.

Lemma image_card_layout_witness :
  image_layout_ok (fst (front_box 2)) (snd (front_box 2)) = true.
Proof.
  assert (H : 0 <= 2 < NB_CARTES) by (unfold NB_CARTES; lia).
  pose proof (image_card_layout env_fine (Pdf.cards10 [sample_card]) bleu 2 H
                eq_refl eq_refl eq_refl eq_refl eq_refl) as W.
  cbv zeta in W. unfold image_box, text_box_over_image in W.
  exact (proj1 (proj2 W)).
Defined.

(** ** The deck and the header row beyond the claims *)

Module Deck.

Lemma cards10_firstn (cards : list card) :
  Pdf.cards10 (firstn 10 cards) = Pdf.cards10 cards.
Proof.
  unfold Pdf.cards10. change (Z.to_nat NB_CARTES) with 10%nat.
  now rewrite firstn_firstn, Nat.min_id.
Qed.

Lemma card_at_blank (cards : list card) (i : Z) :
  Z.of_nat (List.length cards) <= i < NB_CARTES ->
  Pdf.card_at (Pdf.cards10 cards) i = Pdf.blank_card.
Proof.
  unfold NB_CARTES. intros H. unfold Pdf.card_at, Pdf.cards10.
  change (Z.to_nat NB_CARTES) with 10%nat.
  rewrite firstn_app_repeat.
  assert (L : List.length (firstn 10 cards) = List.length cards).
  { rewrite length_firstn. lia. }
  rewrite app_nth2 by lia. rewrite L.
  apply nth_repeat.
Qed.

End Deck.

(** Cards beyond the tenth have no effect on build_pdf: it runs as on the
    first ten. *)
Theorem cards_beyond_ten_ignored (env : Pdf.Env) (cards : list card)
    (default_back_color : Color) (uploaded_image_file : bool) (s : Pdf.State) :
  Pdf.build_pdf env cards default_back_color uploaded_image_file s
  = Pdf.build_pdf env (firstn 10 cards) default_back_color uploaded_image_file s.
Proof.
  unfold Pdf.build_pdf. now rewrite Deck.cards10_firstn.
Qed.

(** A slot past the last card is rendered as a blank card: filled with the
    default colour, with the placeholder &nbsp; as its question and as its
    back text. *)
Theorem blank_slots_render_default (cards : list card)
    (default_back_color : Color) (i : Z) :
  Z.of_nat (List.length cards) <= i < NB_CARTES ->
  card_color (Pdf.cards10 cards) default_back_color i = default_back_color
  /\ paragraph_markup (card_text (Pdf.card_at (Pdf.cards10 cards) i) (py "question"))
     = py "&nbsp;"
  /\ paragraph_markup (card_text (Pdf.card_at (Pdf.cards10 cards) i) (py "texte"))
     = py "&nbsp;".
Proof.
  intros H. unfold card_color. rewrite (Deck.card_at_blank cards i H).
  repeat split.
Qed.

Lemma blank_slots_render_default_witness :
  card_color (Pdf.cards10 [markup_card]) bleu 4 = bleu.
Proof.
  refine (proj1 (blank_slots_render_default [markup_card] bleu 4 _)).
  unfold NB_CARTES. simpl. lia.
Defined.

(** The first row is taken as the header exactly when one of its cells
    normalises to a word of the header vocabulary; it is then never read as a
    card, even when it was meant as data, and the cards are those of the
    non-blank rows after it. *)
Theorem header_word_consumes_first_row (first : list pystr)
    (rest : list (list pystr)) :
  (has_header (map normalize_header first) = true <->
   exists x, In x first /\ In (normalize_header x) header_vocabulary)
  /\ ((exists x, In x first /\ In (normalize_header x) header_vocabulary) ->
      read_cards_from_rows (first :: rest)
      = map (card_of_header_row (map normalize_header first)) (filter not_blank rest)
      /\ (List.length (read_cards_from_rows (first :: rest)) <= List.length rest)%nat).
Proof.
  assert (E : has_header (map normalize_header first) = true <->
              exists x, In x first /\ In (normalize_header x) header_vocabulary).
  { unfold has_header. rewrite existsb_exists. split.
    - intros (n & Hn & Hv). apply in_map_iff in Hn as (x & <- & Hx).
      apply existsb_exists in Hv as (v & Hv & Heq).
      apply str_eqb_eq in Heq. subst v. eauto.
    - intros (x & Hx & Hv). exists (normalize_header x). split.
      + now apply in_map.
      + apply existsb_exists. exists (normalize_header x).
        split; [exact Hv | apply str_eqb_refl]. }
  split; [exact E|].
  intros H. apply E in H. unfold read_cards_from_rows. rewrite H.
  split; [reflexivity|].
  rewrite length_map. apply filter_length_le.
Qed.

Lemma header_word_consumes_first_row_witness :
  read_cards_from_rows [[py "Q"; py "4"]; [py "R"; py "5"]]
  = [mk_card (py "R") [] None].
Proof.
  rewrite (proj1 (proj2 (header_word_consumes_first_row [py "Q"; py "4"]
                           [[py "R"; py "5"]])
                   (ex_intro _ (py "Q") (conj (or_introl eq_refl)
                                              (or_intror (or_introl eq_refl)))))).
  vm_compute. reflexivity.
Defined.
(** ** The front face of a card *)

Module Front.
Import Pdf Logic.

Lemma starts_grow (l : list event) (s s' : State) (more : list event) :
  log s' = log s ++ more -> log_starts l s -> log_starts l s'.
Proof.
  intros E [rest H]. exists (rest ++ more). now rewrite E, H, app_assoc.
Qed.

Lemma starts_emit l e : preserves (log_starts l) (emit e).
Proof. intros s Hs. now apply (starts_grow l s _ [e]). Qed.

Lemma starts_create_file l p : preserves (log_starts l) (create_file p).
Proof. intros s Hs. now apply (starts_grow l s _ [TempCreated p]). Qed.

Lemma starts_register l p : preserves (log_starts l) (register p).
Proof. intros s Hs. exact Hs. Qed.

Ltac walk_starts :=
  repeat first
    [ Temp.structure
    | apply starts_register | apply starts_create_file | apply starts_emit ].

Lemma styled_emit st e :
  (forall markup st' x y, e = DrawParagraph markup st' x y -> st' = st) ->
  preserves (paragraphs_styled st) (emit e).
Proof.
  intros He s Hs markup st' x y Hin. cbn in Hin.
  apply in_app_or in Hin as [Hin | [Hin | []]]; eauto.
Qed.

Lemma styled_create_file st p : preserves (paragraphs_styled st) (create_file p).
Proof.
  intros s Hs markup st' x y Hin. cbn in Hin.
  apply in_app_or in Hin as [Hin | [Hin | []]]; [eauto | discriminate].
Qed.

Lemma styled_register st p : preserves (paragraphs_styled st) (register p).
Proof. intros s Hs. exact Hs. Qed.

Ltac other_event :=
  let E := fresh in
  intros ? ? ? ? E; first [discriminate E | now injection E].

Ltac walk_styled :=
  repeat first
    [ Temp.structure
    | apply styled_register | apply styled_create_file
    | apply styled_emit; other_event ].

(** A card begins by setting its fill colour and filling its cell, the cell
    of column i mod 2 and row i / 2, without a stroke. *)
Lemma recto_card_fills env grid deck default have_image i s :
  log_starts
    (log s ++
     [ SetFillColor (card_color deck default i);
       Rect (fst (card_xy grid (i mod 2) (i / 2)))
            (snd (card_xy grid (i mod 2) (i / 2)))
            (card_w grid) (card_h grid) false true ])
    (snd (recto_card env grid deck default have_image i s)).
Proof.
  unfold recto_card, front_cell, COLS, card_color.
  destruct (card_xy grid (i mod 2) (i / 2)) as [x y]. cbn [fst snd].
  rewrite Temp.bind_run. cbn [emit]. rewrite Temp.bind_run. cbn [emit].
  match goal with |- log_starts ?l (snd (?m ?s2)) =>
    apply (fun H => H s2 : log_starts l s2 -> log_starts l (snd (m s2)));
    [ change (preserves (log_starts l) m) | ] end.
  - walk_starts.
  - exists []. cbn. now rewrite app_nil_r, <- app_assoc.
Qed.

(** Every paragraph of a card's front is set in the style of its colour. *)
Lemma recto_card_styled env grid deck default have_image i :
  preserves (paragraphs_styled (style_recto (card_color deck default i)))
            (recto_card env grid deck default have_image i).
Proof.
  unfold recto_card, card_color, draw_centered_text_in_box.
  destruct (front_cell i) as [col row]. destruct (card_xy grid col row) as [x y].
  walk_styled.
Qed.

Lemma init_styled st : paragraphs_styled st init.
Proof. intros markup st' x y []. Qed.

Lemma starts_shorter (a b : list event) (s : State) :
  log_starts (a ++ b) s -> log_starts a s.
Proof. intros [rest H]. exists (b ++ rest). now rewrite H, app_assoc. Qed.

End Front.



(** C5, as the code has it: is_dark computes lum = 0.2126 r + 0.7152 g +
    0.0722 b; the style of the front text has white text when lum < 0.55 and
    black text otherwise, so that a background whose lum is exactly 0.55 is
    not dark and gets black text; black (0,0,0) gets white text and white
    (1,1,1) gets black text; every paragraph on the front of a card is set in
    that style of the card's colour. *)
Theorem recto_text_color_rule (c : Color) :
  luminance c = (0.2126 * red c + 0.7152 * green c + 0.0722 * blue c)%float
  /\ is_dark c
     = PrimFloat.ltb (0.2126 * red c + 0.7152 * green c + 0.0722 * blue c) 0.55
  /\ Pdf.textColor (Pdf.style_recto c)
     = (if PrimFloat.ltb (0.2126 * red c + 0.7152 * green c + 0.0722 * blue c) 0.55
        then mkColor 1 1 1 else mkColor 0 0 0)
  /\ ((0.2126 * red c + 0.7152 * green c + 0.0722 * blue c)%float = 0.55%float ->
      is_dark c = false /\ Pdf.textColor (Pdf.style_recto c) = mkColor 0 0 0)
  /\ Pdf.textColor (Pdf.style_recto (mkColor 0 0 0)) = mkColor 1 1 1
  /\ Pdf.textColor (Pdf.style_recto (mkColor 1 1 1)) = mkColor 0 0 0
  /\ (forall env grid deck default have_image i,
        card_color deck default i = c ->
        paragraphs_styled (Pdf.style_recto c)
          (snd (Pdf.recto_card env grid deck default have_image i Pdf.init)))
  /\ (forall env deck default i,
        (forall markup, Pdf.para_ok env markup = true) ->
        card_color deck default i = c ->
        In (paragraph_event env (fst (front_box i)) (snd (front_box i))
              (card_w compute_grid) (card_h compute_grid)
              (card_text (Pdf.card_at deck i) (py "question")) (Pdf.style_recto c))
           (Pdf.log (snd (Pdf.recto_card env compute_grid deck default false i
                            Pdf.init)))).
Proof.
  split; [reflexivity|]. split; [reflexivity|]. split; [reflexivity|].
  split.
  - intros H. unfold Pdf.style_recto, recto_text_color, is_dark, luminance.
    cbn [Pdf.textColor]. rewrite H. split; reflexivity.
  - split; [reflexivity|]. split; [reflexivity|]. split.
    + intros env grid deck default have_image i <-.
      apply Front.recto_card_styled, Front.init_styled.
    + intros env deck default i Hacc <-.
      rewrite (Run.recto_card_plain_run env Hacc). cbn. auto.
Qed.

Lemma recto_text_color_rule_witness :
  (is_dark boundary_color = false
   /\ Pdf.textColor (Pdf.style_recto boundary_color) = mkColor 0 0 0)
  /\ paragraphs_styled (Pdf.style_recto (HexColor 0xF1C40F))
       (snd (Pdf.recto_card env_fine compute_grid (Pdf.cards10 [markup_card])
               bleu true 0 Pdf.init))
  /\ In (paragraph_event env_fine (fst (front_box 0)) (snd (front_box 0))
           (card_w compute_grid) (card_h compute_grid)
           (card_text (Pdf.card_at (Pdf.cards10 [markup_card]) 0) (py "question"))
           (Pdf.style_recto (HexColor 0xF1C40F)))
        (Pdf.log (snd (Pdf.recto_card env_fine compute_grid
                         (Pdf.cards10 [markup_card]) bleu false 0 Pdf.init))).
Proof.
  split; [|split].
  - apply (proj1 (proj2 (proj2 (proj2 (recto_text_color_rule boundary_color))))).
    reflexivity.
  - apply (proj1 (proj2 (proj2 (proj2 (proj2 (proj2 (proj2
             (recto_text_color_rule (HexColor 0xF1C40F))))))))).
    reflexivity.
  - apply (proj2 (proj2 (proj2 (proj2 (proj2 (proj2 (proj2
             (recto_text_color_rule (HexColor 0xF1C40F))))))))).
    + intros markup. reflexivity.
    + reflexivity.
Defined.

(** A card tagged with a colour name is filled with that colour of COLOR_MAP
    whatever the default colour is, and its question is set in white on bleu,
    rouge and rose and in black on vert and jaune; a card without a tag is
    filled with the default colour. *)
Theorem tagged_card_color (k : pystr) (default_back_color : Color) :
  is_color_name k = true ->
  COLOR_MAP_get (Some k) default_back_color = COLOR_MAP_at k
  /\ Pdf.textColor (Pdf.style_recto (COLOR_MAP_at k))
     = (if existsb (str_eqb k) [py "bleu"; py "rouge"; py "rose"]
        then mkColor 1 1 1 else mkColor 0 0 0)
  /\ (forall env grid deck have_image i s,
        card_get (Pdf.card_at deck i) (py "card_color_key") = Some k ->
        log_starts (Pdf.log s ++ [Pdf.SetFillColor (COLOR_MAP_at k)])
          (snd (Pdf.recto_card env grid deck default_back_color have_image i s))
        /\ paragraphs_styled (Pdf.style_recto (COLOR_MAP_at k))
             (snd (Pdf.recto_card env grid deck default_back_color have_image i
                     Pdf.init)))
  /\ (forall env grid deck have_image i s,
        card_get (Pdf.card_at deck i) (py "card_color_key") = None ->
        log_starts (Pdf.log s ++ [Pdf.SetFillColor default_back_color])
          (snd (Pdf.recto_card env grid deck default_back_color have_image i s))).
Proof.
  intros H.
  assert (G : COLOR_MAP_get (Some k) default_back_color = COLOR_MAP_at k).
  { unfold COLOR_MAP_get, COLOR_MAP_at, is_color_name in *.
    now destruct (dict_find k COLOR_MAP). }
  split; [exact G|]. split; [|split].
  - apply color_name_cases in H. simpl in H.
    repeat (destruct H as [<- | H]; [vm_compute; reflexivity|]). destruct H.
  - intros env grid deck have_image i s Hk.
    assert (C : card_color deck default_back_color i = COLOR_MAP_at k)
      by (unfold card_color; now rewrite Hk).
    split.
    + pose proof (Front.recto_card_fills env grid deck default_back_color
                    have_image i s) as F.
      rewrite C in F.
      destruct F as [rest F]. eexists. rewrite F.
      rewrite <- app_assoc. cbn [app]. rewrite <- app_assoc. reflexivity.
    + rewrite <- C. apply Front.recto_card_styled, Front.init_styled.
  - intros env grid deck have_image i s Hk.
    assert (C : card_color deck default_back_color i = default_back_color)
      by (unfold card_color; now rewrite Hk).
    pose proof (Front.recto_card_fills env grid deck default_back_color
                  have_image i s) as F.
    rewrite C in F. destruct F as [rest F]. eexists. rewrite F.
    rewrite <- app_assoc. cbn [app]. rewrite <- app_assoc. reflexivity.
Qed.

Lemma tagged_card_color_witness :
  Pdf.textColor (Pdf.style_recto (COLOR_MAP_at (py "jaune"))) = mkColor 0 0 0
  /\ log_starts [Pdf.SetFillColor (COLOR_MAP_at (py "jaune"))]
       (snd (Pdf.recto_card env_fine compute_grid (Pdf.cards10 [markup_card])
               bleu false 0 Pdf.init)).
Proof.
  destruct (tagged_card_color (py "jaune") bleu eq_refl) as (_ & Ht & Hc & _).
  split; [exact Ht|].
  exact (proj1 (Hc env_fine compute_grid (Pdf.cards10 [markup_card]) false 0
                  Pdf.init eq_refl)).
Defined.

(** ** Temporary files: order and registration *)

Module Order.
Import Pdf Logic.

Lemma saved_emit e :
  (forall i, e <> PngSaved i) -> preserves saved_are_registered (emit e).
Proof.
  intros He s Hs i Hin. cbn in *.
  apply in_app_or in Hin as [Hin | [Hin | []]].
  - destruct (Hs i Hin) as [Hc Hr]. split; [apply in_or_app; now left | exact Hr].
  - exfalso. exact (He i Hin).
Qed.

Lemma saved_delete_file p : preserves saved_are_registered (delete_file p).
Proof.
  intros s Hs i Hin. cbn in *.
  apply in_app_or in Hin as [Hin | [Hin | []]]; [|discriminate].
  destruct (Hs i Hin) as [Hc Hr]. split; [apply in_or_app; now left | exact Hr].
Qed.

Lemma saved_composite env i : preserves saved_are_registered (composite env i).
Proof.
  assert (G : forall s m, saved_are_registered s ->
                saved_are_registered (snd (emit (StError m) s))).
  { intros s m. apply saved_emit. discriminate. }
  intros s Hs. unfold composite, try_, bind, guard, ret, raise.
  destruct (compose_ok env i); [|now apply G].
  destruct (mktemp_ok env i); [|now apply G].
  destruct (save_png_ok env i); cbn; intros j Hin; cbn in *.
  - apply in_app_or in Hin as [Hin | [Hin | []]].
    + apply in_app_or in Hin as [Hin | [Hin | []]]; [|discriminate].
      destruct (Hs j Hin) as [Hc Hr]. split.
      * apply in_or_app. left. apply in_or_app. now left.
      * apply in_or_app. now left.
    + injection Hin as <-. split.
      * apply in_or_app. left. apply in_or_app. right. now left.
      * apply in_or_app. right. now left.
  - apply in_app_or in Hin as [Hin | [Hin | []]]; [|discriminate].
    apply in_app_or in Hin as [Hin | [Hin | []]]; [|discriminate].
    destruct (Hs j Hin) as [Hc Hr]. split; [|exact Hr].
    apply in_or_app. left. apply in_or_app. now left.
Qed.

Ltac walk_saved :=
  repeat first
    [ Temp.structure
    | apply saved_composite
    | apply saved_delete_file
    | apply saved_emit; discriminate ].

Lemma saved_build_pdf env cards default uploaded :
  preserves saved_are_registered (build_pdf env cards default uploaded).
Proof.
  unfold build_pdf.
  apply preserves_bind; [walk_saved | intros have_image].
  apply preserves_bind.
  { apply preserves_for_each. intros i. unfold recto_card.
    destruct (front_cell i) as [col row].
    destruct (card_xy compute_grid col row) as [x y].
    apply preserves_bind; [apply saved_emit; discriminate | intros _].
    apply preserves_bind; [apply saved_emit; discriminate | intros _].
    apply preserves_bind.
    - destruct have_image; [apply saved_composite | apply preserves_ret].
    - intros [p|]; cbv zeta; unfold draw_centered_text_in_box; walk_saved. }
  intros _. unfold verso_card, draw_centered_text_in_box. walk_saved.
  intros s Hs. unfold clean_up.
  apply (preserves_for_each saved_are_registered (to_clean s) (remove_temp env));
    [|exact Hs].
  intros p. unfold remove_temp. walk_saved.
Qed.

Lemma drawing_no_cleanup env cards default uploaded :
  preserves (none_logged is_cleanup_event) (drawing env cards default uploaded).
Proof. unfold drawing. Run.walk_none. Qed.

Lemma none_precedes (a : event) (P : event -> bool) (s : State) :
  none_logged P s -> precedes a P (log s).
Proof.
  intros H l1 e l2 E He. unfold none_logged in H. rewrite E in H.
  apply Forall_app in H as [_ H]. inversion H; subst. congruence.
Qed.

Lemma remove_temp_after_save env p :
  preserves (fun s => In Save (log s) /\ cleanup_after_save s) (remove_temp env p).
Proof.
  assert (G : forall e s, In Save (log s) /\ cleanup_after_save s ->
                In Save (log s ++ [e])
                /\ precedes Save is_cleanup_event (log s ++ [e])).
  { intros e s [Hin Hp]. split; [apply in_or_app; now left|].
    now apply Temp.precedes_snoc_after. }
  intros s Hs. unfold remove_temp.
  destruct (remove_ok env p); cbn; unfold cleanup_after_save; cbn; now apply G.
Qed.

Lemma build_pdf_cleanup_after_save env cards default uploaded :
  cleanup_after_save (snd (build_pdf env cards default uploaded init)).
Proof.
  rewrite Temp.build_pdf_split, Temp.bind_run.
  pose proof (drawing_no_cleanup env cards default uploaded init (Forall_nil _)) as N.
  pose proof (Run.drawing_ok_saved env cards default uploaded init) as S.
  destruct (drawing env cards default uploaded init) as [[[]|] s1];
    cbn [fst snd] in *.
  - unfold clean_up.
    apply (preserves_for_each (fun s => In Save (log s) /\ cleanup_after_save s)
             (to_clean s1) (remove_temp env));
      [intros p; apply remove_temp_after_save|].
    split; [now apply S | now apply none_precedes].
  - now apply none_precedes.
Qed.

End Order.


